(** * GameArena leaderboard: the ranking and caching engine

    A shallow embedding of the backend service
    ([services/leaderboardService.js], [controllers/leaderboardController.js],
    [jobs/workers.js], [config/redis.js], [config/queues.js],
    [utils/validation.js], [middleware/errorHandler.js]) over explicit
    state: the three PostgreSQL tables, the Redis key space and the BullMQ
    rank-recalculation queue.  Every I/O call of the source that can reject
    is driven by a fault flag of the call's environment, so that the
    [try]/[catch] structure of the JavaScript is kept as it is written. *)

From Stdlib Require Import ZArith Lia.
From stdpp Require Import base option list gmap strings pretty sorting.

Open Scope Z_scope.
Local Set Warnings "-register-all".

(** ** Errors and fallible computations *)

Inductive Error : Type :=
  | AppError (message : string) (statusCode : Z)
  | PrismaError (code : string)
  | RedisError
  | QueueError (message : string)
  | TypeError (message : string).

Inductive Result (A : Type) : Type :=
  | Ok (a : A)
  | Err (e : Error).
Arguments Ok {A} a.
Arguments Err {A} e.

Global Instance Result_ret : MRet Result := λ A a, Ok a.
Global Instance Result_bind : MBind Result := λ A B k r,
  match r with
  | Ok a => k a
  | Err e => Err e
  end.

Definition is_ok {A} (r : Result A) : bool :=
  match r with Ok _ => true | Err _ => false end.

(** ** JavaScript values

    Only the fragment the service builds: numbers are the integers the
    INTEGER columns hold, objects are ordered property lists. *)

Module Js.

Inductive value : Type :=
  | Undefined
  | Null
  | Bool (b : bool)
  | Num (n : Z)
  | Str (s : string)
  | Date (instant : Z)
  | Arr (items : list value)
  | Obj (props : list (string * value)).

Fixpoint lookup_prop (name : string) (props : list (string * value)) : value :=
  match props with
  | [] => Undefined
  | (k, v) :: rest => if decide (k = name) then v else lookup_prop name rest
  end.

(** [v.name]: reading a property of [undefined] or [null] throws a
    TypeError, a missing property of an object reads as [undefined].  The
    service reads properties of objects and of [undefined] only. *)
Definition get (v : value) (name : string) : Result value :=
  match v with
  | Undefined =>
      Err (TypeError ("Cannot read properties of undefined (reading '"
                        +:+ name +:+ "')"))
  | Null =>
      Err (TypeError ("Cannot read properties of null (reading '"
                        +:+ name +:+ "')"))
  | Obj props => Ok (lookup_prop name props)
  | _ => Ok Undefined
  end.

Definition of_option_num (o : option Z) : value :=
  match o with Some n => Num n | None => Null end.

End Js.

(** ** The store: tables [users], [game_sessions], [leaderboards]

    [users] is keyed by its primary key and [leaderboards] by its unique
    [user_id]; [game_sessions] is the append-only log.  The SERIAL surrogate
    keys of [game_sessions] and [leaderboards] are read by no service
    function and are left out. *)

Record User : Type := mkUser {
  username : string;
  join_date : Z
}.

Record GameSession : Type := mkGameSession {
  gs_user_id : Z;
  gs_score : Z;
  gs_game_mode : string;
  gs_timestamp : Z
}.

Record Leaderboard : Type := mkLeaderboard {
  total_score : Z;
  rank : option Z
}.

Record DB : Type := mkDB {
  users : gmap Z User;
  game_sessions : list GameSession;
  leaderboards : gmap Z Leaderboard
}.

Definition empty_db : DB := mkDB ∅ [] ∅.

(** PostgreSQL INTEGER columns are 32-bit; a value outside fails the
    statement. *)
Definition INT4_MIN : Z := -2147483648.
Definition INT4_MAX : Z := 2147483647.
Definition int4 (z : Z) : bool := (INT4_MIN <=? z) && (z <=? INT4_MAX).

(** Sessions of one player, and SUM(score) over them. *)
Definition sessions_of (userId : Z) (ss : list GameSession) : list GameSession :=
  filter (λ s, gs_user_id s = userId) ss.

Definition sum_scores (ss : list GameSession) : Z :=
  foldr (λ s acc, gs_score s + acc) 0 ss.

Definition player_sum (userId : Z) (db : DB) : Z :=
  sum_scores (sessions_of userId (game_sessions db)).

(** ** Call environment: the clock and the faults of one call *)

Record Env : Type := mkEnv {
  now : Z;
  store_down : bool;
  redis_get_down : bool;
  redis_setex_down : bool;
  redis_del_down : string → bool;
  queue_down : bool;
  (* process.env, as config/redis.js and the service read it *)
  LEADERBOARD_CACHE_TTL : Z;
  RANK_CACHE_TTL : Z;
  RANK_RECALCULATION_ENABLED : bool
}.

(** No fault, the documented settings (60 s, 30 s, recalculation on). *)
Definition healthy (t : Z) : Env :=
  mkEnv t false false false (λ _, false) false 60 30 true.

Definition no_faults (env : Env) : Prop :=
  store_down env = false ∧ redis_get_down env = false ∧
  redis_setex_down env = false ∧ (∀ k, redis_del_down env k = false) ∧
  queue_down env = false.

(** ** Prisma statements of the submission transaction *)

Module Tx.

Definition user_name (userId : Z) : string := "user_" +:+ pretty userId.

(** [tx.user.upsert({ where: {id}, update: {}, create: {id, username} })];
    [users.username] carries a unique index. *)
Definition user_upsert (t : Z) (userId : Z) (db : DB) : Result (DB * User) :=
  match users db !! userId with
  | Some u => Ok (db, u)
  | None =>
      if negb (int4 userId) then Err (PrismaError "P2020")
      else if bool_decide
                (map_Exists (λ _ u, username u = user_name userId) (users db))
      then Err (PrismaError "P2002")
      else
        let u := mkUser (user_name userId) t in
        Ok (mkDB (<[userId := u]> (users db)) (game_sessions db)
              (leaderboards db), u)
  end.

(** [tx.gameSession.create({ data: {userId, score, gameMode} })];
    [game_sessions.user_id] references [users.id]. *)
Definition gameSession_create (t : Z) (userId score : Z) (gameMode : string)
    (db : DB) : Result (DB * GameSession) :=
  if negb (int4 userId && int4 score) then Err (PrismaError "P2020")
  else if negb (bool_decide (is_Some (users db !! userId)))
  then Err (PrismaError "P2003")
  else
    let s := mkGameSession userId score gameMode t in
    Ok (mkDB (users db) (game_sessions db ++ [s]) (leaderboards db), s).

(** [tx.gameSession.aggregate({ where: {userId}, _sum: {score: true} })]:
    [_sum.score] is null over no rows. *)
Definition gameSession_aggregate_sum (userId : Z) (db : DB) : option Z :=
  match sessions_of userId (game_sessions db) with
  | [] => None
  | ss => Some (sum_scores ss)
  end.

(** [x || 0] on a nullable number. *)
Definition or_zero (x : option Z) : Z :=
  match x with
  | Some n => if decide (n = 0) then 0 else n
  | None => 0
  end.

(** [tx.leaderboards.upsert({ where: {userId}, update: {totalScore},
    create: {userId, totalScore} })]. *)
Definition leaderboards_upsert (userId totalScore : Z) (db : DB)
    : Result (DB * Leaderboard) :=
  if negb (int4 totalScore) then Err (PrismaError "P2020")
  else
    match leaderboards db !! userId with
    | Some row =>
        let row' := mkLeaderboard totalScore (rank row) in
        Ok (mkDB (users db) (game_sessions db)
              (<[userId := row']> (leaderboards db)), row')
    | None =>
        if negb (bool_decide (is_Some (users db !! userId)))
        then Err (PrismaError "P2003")
        else
          let row' := mkLeaderboard totalScore None in
          Ok (mkDB (users db) (game_sessions db)
                (<[userId := row']> (leaderboards db)), row')
    end.

Definition gameSession_obj (s : GameSession) : Js.value :=
  Js.Obj [("userId", Js.Num (gs_user_id s)); ("score", Js.Num (gs_score s));
          ("gameMode", Js.Str (gs_game_mode s));
          ("timestamp", Js.Num (gs_timestamp s))].

Definition leaderboard_obj (userId : Z) (row : Leaderboard) : Js.value :=
  Js.Obj [("userId", Js.Num userId); ("totalScore", Js.Num (total_score row));
          ("rank", Js.of_option_num (rank row))].

(** The callback handed to [prisma.$transaction]: the four statements in
    source order; its value is [{ gameSession, leaderboardEntry,
    totalScore }]. *)
Definition body (t : Z) (userId score : Z) (gameMode : string) (db : DB)
    : Result (DB * Js.value) :=
  '(db1, _) ← user_upsert t userId db;
  '(db2, gameSession) ← gameSession_create t userId score gameMode db1;
  let totalScore := or_zero (gameSession_aggregate_sum userId db2) in
  '(db3, leaderboardEntry) ← leaderboards_upsert userId totalScore db2;
  Ok (db3, Js.Obj [("gameSession", gameSession_obj gameSession);
                   ("leaderboardEntry", leaderboard_obj userId leaderboardEntry);
                   ("totalScore", Js.Num totalScore)]).

(** Isolation level and timeout handed to [prisma.$transaction]. *)
Inductive IsolationLevel : Type :=
  ReadUncommitted | ReadCommitted | RepeatableRead | Serializable.

Record Options : Type := mkOptions {
  isolationLevel : IsolationLevel;
  timeout : Z
}.

Definition options : Options := mkOptions ReadCommitted 30000.

(** [prisma.$transaction(body, options)] run alone: all four statements
    or none; an unreachable store or a timeout rejects with nothing
    written. *)
Definition transaction (env : Env) (userId score : Z) (gameMode : string)
    (db : DB) : Result (DB * Js.value) :=
  if store_down env then Err (PrismaError "P1001")
  else body (now env) userId score gameMode db.

End Tx.

(** ** Redis: keys, entries with their TTL, and the two invalidations *)

Module CACHE_KEYS.
Definition TOP_LEADERBOARD : string := "leaderboard:top10".
Definition USER_RANK (userId : Z) : string :=
  "leaderboard:rank:" +:+ pretty userId.
Definition USER_SCORE (userId : Z) : string :=
  "leaderboard:score:" +:+ pretty userId.
End CACHE_KEYS.

(** The payload stands for its JSON text: [JSON.parse] inverts
    [JSON.stringify] on the numbers, strings, arrays and plain objects the
    service stores.  Expiry after [ttl] seconds is the environment step
    [expire]. *)
Record Entry : Type := mkEntry {
  ttl : Z;
  payload : Js.value
}.

Abbreviation Cache := (gmap string Entry).

Definition redis_get (env : Env) (k : string) (c : Cache)
    : Result (option Js.value) :=
  if redis_get_down env then Err RedisError else Ok (payload <$> c !! k).

Definition redis_setex (env : Env) (k : string) (seconds : Z) (v : Js.value)
    (c : Cache) : Result Cache :=
  if redis_setex_down env then Err RedisError
  else Ok (<[k := mkEntry seconds v]> c).

Definition redis_del (env : Env) (k : string) (c : Cache) : Result Cache :=
  if redis_del_down env k then Err RedisError else Ok (delete k c).

Definition expire (k : string) (c : Cache) : Cache := delete k c.

(** [invalidateLeaderboardCache] and [invalidateUserCache] log and swallow
    a failed [del]; in the second, a failure of the first [del] skips the
    other one. *)
Definition invalidateLeaderboardCache (env : Env) (c : Cache) : Cache :=
  match redis_del env CACHE_KEYS.TOP_LEADERBOARD c with
  | Ok c' => c'
  | Err _ => c
  end.

Definition invalidateUserCache (env : Env) (userId : Z) (c : Cache) : Cache :=
  match redis_del env (CACHE_KEYS.USER_RANK userId) c with
  | Err _ => c
  | Ok c1 =>
      match redis_del env (CACHE_KEYS.USER_SCORE userId) c1 with
      | Err _ => c1
      | Ok c2 => c2
      end
  end.

(** ** The rank-recalculation queue *)

Record JobData : Type := mkJobData {
  job_userId : option Z;
  fullRecalculation : bool;
  incremental : bool
}.

Record Job : Type := mkJob {
  data : JobData;
  priority : Z
}.

(** [addRankRecalculationJob] logs a failed [queue.add] and throws it on. *)
Definition addRankRecalculationJob (env : Env) (d : JobData) (q : list Job)
    : Result (list Job) :=
  if queue_down env then Err (QueueError "Connection is closed.")
  else Ok (q ++ [mkJob d (if fullRecalculation d then 1 else 10)]).

(** ** The whole state *)

Record World : Type := mkWorld {
  db : DB;
  cache : Cache;
  queue : list Job
}.

Definition empty_world : World := mkWorld empty_db ∅ [].

(** ** Ranking queries *)

Section window.
Context {A : Type} (score : A → Z).

(** [ORDER BY score DESC]. *)
Definition desc (a b : A) : Prop := score b ≤ score a.

Global Instance desc_dec a b : Decision (desc a b) := Z_le_dec _ _.

Definition order_by_desc (rows : list A) : list A := merge_sort desc rows.

(** [RANK() OVER (ORDER BY score DESC)] along the ordered rows: a row
    shares the rank of its predecessor when their scores are equal and
    takes its own position otherwise. *)
Fixpoint rank_walk (pos : Z) (prev : option (Z * Z)) (rows : list A)
    : list (A * Z) :=
  match rows with
  | [] => []
  | r :: rest =>
      let rk :=
        match prev with
        | Some (s, k) => if decide (s = score r) then k else pos
        | None => pos
        end in
      (r, rk) :: rank_walk (pos + 1) (Some (score r, rk)) rest
  end.

Definition RANK (rows : list A) : list (A * Z) :=
  rank_walk 1 None (order_by_desc rows).

(** [SELECT COUNT( * ) ... WHERE score > x]. *)
Definition count_greater (x : Z) (rows : list A) : Z :=
  Z.of_nat (length (filter (λ r, x < score r) rows)).

(** [SELECT COUNT( * ) ... WHERE score = x]. *)
Definition count_equal (x : Z) (rows : list A) : Z :=
  Z.of_nat (length (filter (λ r, score r = x) rows)).
End window.

(** [leaderboards l INNER JOIN users u ON l.user_id = u.id]. *)
Record Joined : Type := mkJoined {
  j_user_id : Z;
  j_username : string;
  j_total_score : Z
}.

Definition join_users (d : DB) : list Joined :=
  omap (λ '(uid, row),
          u ← users d !! uid; Some (mkJoined uid (username u) (total_score row)))
       (map_to_list (leaderboards d)).

Definition lb_score (kv : Z * Leaderboard) : Z := total_score kv.2.

(** The ranked Top-N query of [getTopPlayers]. *)
Definition top_query (env : Env) (limit : Z) (d : DB)
    : Result (list (Joined * Z)) :=
  if store_down env then Err (PrismaError "P1001")
  else if decide (limit < 0) then Err (PrismaError "P2010")
  else Ok (take (Z.to_nat limit) (RANK j_total_score (join_users d))).

Record RankRow : Type := mkRankRow {
  rr_user_id : Z;
  rr_username : string;
  rr_total_score : Z;
  rr_rank : Z;
  rr_total_players : Z
}.

(** The single-row query of [getPlayerRank]; the two scalar subqueries
    range over [leaderboards] alone. *)
Definition rank_query (env : Env) (userId : Z) (d : DB)
    : Result (option RankRow) :=
  if store_down env then Err (PrismaError "P1001")
  else
    Ok (row ← leaderboards d !! userId;
        u ← users d !! userId;
        Some (mkRankRow userId (username u) (total_score row)
                (count_greater lb_score (total_score row)
                   (map_to_list (leaderboards d)) + 1)
                (Z.of_nat (size (leaderboards d))))).

(** The statement of [recalculateAllRanks]:
    [UPDATE leaderboards SET rank = ranked.rank FROM (SELECT user_id,
    RANK() OVER (ORDER BY total_score DESC) ...) ranked WHERE
    leaderboards.user_id = ranked.user_id]. *)
Definition ranked (rows : gmap Z Leaderboard) : list (Z * Z) :=
  (λ '(kv, rk), (kv.1, rk)) <$> RANK lb_score (map_to_list rows).

Definition update_ranks (rows : gmap Z Leaderboard) : gmap Z Leaderboard :=
  let r : gmap Z Z := list_to_map (ranked rows) in
  map_imap (λ uid row,
              match r !! uid with
              | Some rk => Some (mkLeaderboard (total_score row) (Some rk))
              | None => Some row
              end) rows.

(** ** services/leaderboardService.js *)

Module Service.

Definition failed_submit : Error :=
  AppError "Failed to submit score. Please try again." 500.

(** What [try { ... return v } catch { throw new AppError(..., 500) }]
    makes of the last expression. *)
Definition guard {A} (e : Error) (r : Result A) : Result A :=
  match r with
  | Ok a => Ok a
  | Err _ => Err e
  end.

Definition submitScore (env : Env) (userId score : Z)
    (gameMode : option string) (w : World) : World * Result Js.value :=
  let gameMode := default "solo" gameMode in
  match Tx.transaction env userId score gameMode (db w) with
  | Err _ => (w, Err failed_submit)
  | Ok (db', result) =>
      let cache' :=
        invalidateUserCache env userId
          (invalidateLeaderboardCache env (cache w)) in
      if RANK_RECALCULATION_ENABLED env then
        match addRankRecalculationJob env
                (mkJobData (Some userId) false true) (queue w) with
        | Err _ => (mkWorld db' cache' (queue w), Err failed_submit)
        | Ok queue' =>
            (mkWorld db' cache' queue',
             guard failed_submit (Js.get result "leaderboardsEntry"))
        end
      else
        (mkWorld db' cache' (queue w),
         guard failed_submit (Js.get result "leaderboardsEntry"))
  end.

Definition player_obj (p : Joined * Z) : Js.value :=
  Js.Obj [("userId", Js.Num (j_user_id p.1));
          ("username", Js.Str (j_username p.1));
          ("totalScore", Js.Num (j_total_score p.1));
          ("rank", Js.Num p.2)].

Definition failed_top : Error := AppError "Failed to retrieve leaderboards" 500.

Definition getTopPlayers (env : Env) (limit : Z) (w : World)
    : World * Result Js.value :=
  let cacheKey := CACHE_KEYS.TOP_LEADERBOARD in
  match redis_get env cacheKey (cache w) with
  | Err _ => (w, Err failed_top)
  | Ok (Some cached) => (w, Ok cached)
  | Ok None =>
      match top_query env limit (db w) with
      | Err _ => (w, Err failed_top)
      | Ok topPlayers =>
          let formattedPlayers := Js.Arr (player_obj <$> topPlayers) in
          match redis_setex env cacheKey (LEADERBOARD_CACHE_TTL env)
                  formattedPlayers (cache w) with
          | Err _ => (w, Err failed_top)
          | Ok cache' =>
              (mkWorld (db w) cache' (queue w), Ok formattedPlayers)
          end
      end
  end.

Definition rank_obj (r : RankRow) : Js.value :=
  Js.Obj [("userId", Js.Num (rr_user_id r));
          ("username", Js.Str (rr_username r));
          ("totalScore", Js.Num (rr_total_score r));
          ("rank", Js.Num (rr_rank r));
          ("totalPlayers", Js.Num (rr_total_players r))].

Definition not_found : Error := AppError "Player not found in leaderboards" 404.
Definition failed_rank : Error := AppError "Failed to retrieve player rank" 500.

Definition getPlayerRank (env : Env) (userId : Z) (w : World)
    : World * Result Js.value :=
  let cacheKey := CACHE_KEYS.USER_RANK userId in
  match redis_get env cacheKey (cache w) with
  | Err _ => (w, Err failed_rank)
  | Ok (Some cached) => (w, Ok cached)
  | Ok None =>
      match rank_query env userId (db w) with
      | Err _ => (w, Err failed_rank)
      | Ok None => (w, Err not_found)
      | Ok (Some rankData) =>
          let result := rank_obj rankData in
          match redis_setex env cacheKey (RANK_CACHE_TTL env) result
                  (cache w) with
          | Err _ => (w, Err failed_rank)
          | Ok cache' => (mkWorld (db w) cache' (queue w), Ok result)
          end
      end
  end.

Definition recalculated : Js.value :=
  Js.Obj [("success", Js.Bool true);
          ("message", Js.Str "Ranks recalculated successfully")].

Definition recalculateAllRanks (env : Env) (w : World)
    : World * Result Js.value :=
  if store_down env then (w, Err (PrismaError "P1001"))
  else
    let d := db w in
    let d' := mkDB (users d) (game_sessions d) (update_ranks (leaderboards d)) in
    (mkWorld d' (invalidateLeaderboardCache env (cache w)) (queue w),
     Ok recalculated).

End Service.

(** ** jobs/workers.js: the processor of the rank-recalculation worker *)

Module Worker.

(** [incremental && userId]: a number is truthy unless it is zero. *)
Definition truthy_id (o : option Z) : bool :=
  match o with
  | Some n => negb (n =? 0)
  | None => false
  end.

Definition processed (env : Env) : Js.value :=
  Js.Obj [("success", Js.Bool true); ("processedAt", Js.Date (now env))].

Definition rankRecalculationWorker (env : Env) (job : JobData) (w : World)
    : World * Result Js.value :=
  if fullRecalculation job then
    match Service.recalculateAllRanks env w with
    | (w', Ok _) => (w', Ok (processed env))
    | (w', Err e) => (w', Err e)
    end
  else if incremental job && truthy_id (job_userId job) then
    (* logger.info(`Incremental rank update for user ${userId}`) *)
    (w, Ok (processed env))
  else (w, Ok (processed env)).

End Worker.

(** ** The HTTP boundary: validation, controller, error middleware *)

Record Response : Type := mkResponse {
  status : Z;
  body : Js.value
}.

Module Validation.

(** [submitScoreSchema]: [user_id] a positive integer, [score] an
    integer in 0..1,000,000, [game_mode] an optional string of 1 to 50
    characters that defaults to "solo". *)
Definition submitScoreSchema (user_id score : Z) (game_mode : option string)
    : option (Z * Z * string) :=
  let mode := default "solo" game_mode in
  if (0 <? user_id) && (0 <=? score) && (score <=? 1000000)
     && (1 <=? String.length mode)%nat && (String.length mode <=? 50)%nat
  then Some (user_id, score, mode)
  else None.

End Validation.

Module Controller.

(** The status and message the error middleware answers with (the stack
    it adds in development is left out). *)
Definition errorHandler (env : Env) (err : Error) : Response :=
  let '(code, message) :=
    match err with
    | AppError m c => (c, m)
    | PrismaError c =>
        if decide (c = "P2002") then (409, "Duplicate entry found")
        else if decide (c = "P2025") then (404, "Record not found")
        else (500, "Database operation failed")
    | RedisError => (500, "Cache operation failed")
    | QueueError m => (500, m)
    | TypeError m => (500, m)
    end in
  mkResponse code
    (Js.Obj [("success", Js.Bool false); ("error", Js.Str message);
             ("timestamp", Js.Date (now env))]).

(** [asyncHandler(fn)]: a rejection of the handler goes to the error
    middleware. *)
Definition asyncHandler (env : Env) (r : Result Response) : Response :=
  match r with
  | Ok res => res
  | Err e => errorHandler env e
  end.

(** The Socket.IO broadcast between the service call and the response
    touches none of the state modelled here. *)
Definition submitScore (env : Env) (user_id score : Z) (game_mode : string)
    (w : World) : World * Response :=
  let '(w', r) := Service.submitScore env user_id score (Some game_mode) w in
  (w',
   asyncHandler env
     (result ← r;
      userId ← Js.get result "userId";
      totalScore ← Js.get result "totalScore";
      Ok (mkResponse 200
            (Js.Obj [("success", Js.Bool true);
                     ("message", Js.Str "Score submitted successfully");
                     ("data", Js.Obj [("userId", userId);
                                      ("totalScore", totalScore);
                                      ("submittedAt", Js.Date (now env))])])))).

(** POST /submit: [validateRequest(submitScoreSchema, 'body')], then the
    controller. *)
Definition post_submit (env : Env) (user_id score : Z)
    (game_mode : option string) (w : World) : World * Response :=
  match Validation.submitScoreSchema user_id score game_mode with
  | None =>
      (w, mkResponse 400
            (Js.Obj [("success", Js.Bool false);
                     ("error", Js.Str "Validation failed")]))
  | Some (uid, sc, mode) => submitScore env uid sc mode w
  end.

End Controller.

(** ** Sequences of submissions, and the store invariants *)

Record Submission : Type := mkSubmission {
  sub_env : Env;
  sub_userId : Z;
  sub_score : Z;
  sub_gameMode : option string
}.

Definition submit (c : Submission) (w : World) : World * Result Js.value :=
  Service.submitScore (sub_env c) (sub_userId c) (sub_score c)
    (sub_gameMode c) w.

(** The submissions of a list, one after another, whatever each returns. *)
Definition run_submissions (cs : list Submission) (w : World) : World :=
  foldl (λ w c, (submit c w).1) w cs.

(** Every aggregate row holds the sum of its player's sessions. *)
Definition db_consistent (d : DB) : Prop :=
  ∀ u row, leaderboards d !! u = Some row → total_score row = player_sum u d.

(** The foreign key of [leaderboards.user_id]. *)
Definition db_fk (d : DB) : Prop :=
  map_Forall (λ u _, is_Some (users d !! u)) (leaderboards d).

(** The rank and the total of a player's aggregate row. *)
Definition rank_of (d : DB) (u : Z) : option Z := leaderboards d !! u ≫= rank.

Definition total_of (d : DB) (u : Z) : option Z :=
  total_score <$> leaderboards d !! u.

(** Number of aggregate rows with a total strictly greater than [x], and
    with a total equal to [x]. *)
Definition players_above (d : DB) (x : Z) : Z :=
  count_greater lb_score x (map_to_list (leaderboards d)).

Definition players_tied (d : DB) (x : Z) : Z :=
  count_equal lb_score x (map_to_list (leaderboards d)).

(** * Properties *)

(** ** The submission transaction *)

Lemma sessions_of_snoc u ss s :
  sessions_of u (ss ++ [s]) =
    sessions_of u ss ++ (if decide (gs_user_id s = u) then [s] else []).
Proof.
  unfold sessions_of. by rewrite filter_app.
Qed.

Lemma sum_scores_app ss1 ss2 :
  sum_scores (ss1 ++ ss2) = sum_scores ss1 + sum_scores ss2.
Proof.
  induction ss1 as [|s ss1 IH]; simpl; [done|]. rewrite IH. lia.
Qed.

Lemma or_zero_aggregate u d :
  Tx.or_zero (Tx.gameSession_aggregate_sum u d) = player_sum u d.
Proof.
  unfold Tx.gameSession_aggregate_sum, player_sum.
  destruct (sessions_of u (game_sessions d)) as [|s ss] eqn:E; [done|].
  unfold Tx.or_zero. case_decide as H0; [by rewrite H0|done].
Qed.

(** What a committed transaction body has written. *)
Lemma body_Ok t u s m d d' res :
  Tx.body t u s m d = Ok (d', res) →
  ∃ row,
    game_sessions d' = game_sessions d ++ [mkGameSession u s m t] ∧
    leaderboards d' = <[u := row]> (leaderboards d) ∧
    total_score row = player_sum u d + s ∧
    rank row = (leaderboards d !! u) ≫= rank ∧
    is_Some (users d' !! u) ∧
    (∀ v, is_Some (users d !! v) → is_Some (users d' !! v)) ∧
    int4 (total_score row) = true ∧
    res = Js.Obj [("gameSession", Tx.gameSession_obj (mkGameSession u s m t));
                  ("leaderboardEntry", Tx.leaderboard_obj u row);
                  ("totalScore", Js.Num (total_score row))].
Proof.
  unfold Tx.body. intros H.
  destruct (Tx.user_upsert t u d) as [[d1 usr]|e] eqn:E1; simpl in H; [|done].
  destruct (Tx.gameSession_create t u s m d1) as [[d2 gs]|e] eqn:E2;
    simpl in H; [|done].
  destruct (Tx.leaderboards_upsert u _ d2) as [[d3 row]|e] eqn:E3;
    simpl in H; [|done].
  inversion H; subst d' res; clear H.
  assert (Hu1 : is_Some (users d1 !! u) ∧ game_sessions d1 = game_sessions d
                ∧ leaderboards d1 = leaderboards d
                ∧ ∀ v, is_Some (users d !! v) → is_Some (users d1 !! v)).
  { unfold Tx.user_upsert in E1.
    destruct (users d !! u) as [u0|] eqn:Eu.
    - inversion E1; subst. rewrite Eu. eauto.
    - destruct (negb (int4 u)); [done|]. case_bool_decide; [done|].
      inversion E1; subst; simpl. split; [by rewrite lookup_insert_eq|].
      split; [done|]. split; [done|]. intros v Hv.
      destruct (decide (u = v)) as [->|Hne];
        [by rewrite lookup_insert_eq|by rewrite lookup_insert_ne]. }
  destruct Hu1 as (Hu1 & Hs1 & Hl1 & Hmono).
  unfold Tx.gameSession_create in E2.
  destruct (negb (int4 u && int4 s)); [done|].
  destruct (negb (bool_decide (is_Some (users d1 !! u)))); [done|].
  inversion E2; subst d2 gs; clear E2.
  assert (Htot : Tx.or_zero
            (Tx.gameSession_aggregate_sum u
               (mkDB (users d1)
                  (game_sessions d1 ++ [mkGameSession u s m t])
                  (leaderboards d1))) = player_sum u d + s).
  { rewrite or_zero_aggregate. unfold player_sum. simpl.
    rewrite sessions_of_snoc, sum_scores_app. simpl.
    rewrite decide_True by done. simpl. rewrite Hs1. lia. }
  rewrite Htot in *. clear Htot.
  unfold Tx.leaderboards_upsert in E3. simpl in E3.
  destruct (int4 (player_sum u d + s)) eqn:Ei; simpl in E3; [|done].
  rewrite Hl1 in E3.
  destruct (leaderboards d !! u) as [row0|] eqn:El.
  - inversion E3; subst; simpl.
    eexists; repeat split; eauto; by rewrite ?Hs1, ?Hl1.
  - destruct (negb (bool_decide (is_Some (users d1 !! u)))); [done|].
    inversion E3; subst; simpl.
    eexists; repeat split; eauto; by rewrite ?Hs1, ?Hl1.
Qed.

Lemma player_sum_after t u s m d d' v :
  game_sessions d' = game_sessions d ++ [mkGameSession u s m t] →
  player_sum v d' = player_sum v d + (if decide (u = v) then s else 0).
Proof.
  intros Hs. unfold player_sum. rewrite Hs, sessions_of_snoc, sum_scores_app.
  simpl. case_decide; simpl; lia.
Qed.

(** The two ways [submitScore] goes on after the commit: with the enqueue
    (which may reject) or without it. *)
Ltac after_commit env :=
  destruct (RANK_RECALCULATION_ENABLED env);
    [destruct (addRankRecalculationJob _ _ _)|].

(** What [submitScore] leaves behind: either the store is untouched, or
    the transaction body committed. *)
Lemma submitScore_db env u s m w w' r :
  Service.submitScore env u s m w = (w', r) →
  (db w' = db w ∧ is_ok r = false) ∨
  (∃ res, Tx.body (now env) u s (default "solo" m) (db w) = Ok (db w', res)).
Proof.
  unfold Service.submitScore, Tx.transaction. intros H.
  destruct (store_down env).
  { inversion H; subst. by left. }
  destruct (Tx.body _ _ _ _ _) as [[d' res]|e] eqn:E.
  2:{ inversion H; subst. by left. }
  right. exists res.
  after_commit env; inversion H; subst; done.
Qed.

Lemma submitScore_Ok_committed env u s m w w' v :
  Service.submitScore env u s m w = (w', Ok v) →
  ∃ res, Tx.body (now env) u s (default "solo" m) (db w) = Ok (db w', res).
Proof.
  intros H. destruct (submitScore_db _ _ _ _ _ _ _ H) as [[_ Hr]|Hc]; done.
Qed.

(** The transaction asks for READ COMMITTED and a 30 s timeout; none of its
    four statements takes a lock of its own. *)
Example submission_transaction_options :
  Tx.isolationLevel Tx.options = Tx.ReadCommitted ∧
  Tx.timeout Tx.options = 30000.
Proof. done. Qed.

Lemma submitScore_consistent env u s m w w' r :
  Service.submitScore env u s m w = (w', r) →
  db_consistent (db w) → db_consistent (db w').
Proof.
  intros H Hc. destruct (submitScore_db _ _ _ _ _ _ _ H) as [[-> _]|[res Hb]];
    [done|].
  apply body_Ok in Hb as (row & Hs & Hl & Ht & _).
  intros v row' Hv. rewrite (player_sum_after _ _ _ _ _ _ v Hs).
  rewrite Hl in Hv. destruct (decide (u = v)) as [->|Hne].
  - rewrite lookup_insert_eq in Hv. by inversion Hv; subst.
  - rewrite lookup_insert_ne in Hv by done. rewrite (Hc _ _ Hv). lia.
Qed.

Lemma submitScore_fk env u s m w w' r :
  Service.submitScore env u s m w = (w', r) → db_fk (db w) → db_fk (db w').
Proof.
  intros H Hc. destruct (submitScore_db _ _ _ _ _ _ _ H) as [[-> _]|[res Hb]];
    [done|].
  apply body_Ok in Hb as (row & _ & Hl & _ & _ & Hu & Hmono & _).
  intros v rv Hv. rewrite Hl in Hv.
  destruct (decide (u = v)) as [->|Hne]; [done|].
  rewrite lookup_insert_ne in Hv by done. by eapply Hmono, Hc.
Qed.

Lemma run_submissions_snoc cs c w :
  run_submissions (cs ++ [c]) w = (submit c (run_submissions cs w)).1.
Proof. unfold run_submissions. by rewrite foldl_app. Qed.

Lemma run_submissions_invariant (P : DB → Prop) :
  (∀ c w, P (db w) → P (db (submit c w).1)) →
  ∀ cs w, P (db w) → P (db (run_submissions cs w)).
Proof.
  intros Hstep cs. induction cs as [|c cs IH]; intros w Hw; [done|].
  simpl. apply IH, Hstep, Hw.
Qed.

Lemma run_submissions_consistent cs w :
  db_consistent (db w) → db_consistent (db (run_submissions cs w)).
Proof.
  apply run_submissions_invariant. intros c w0.
  destruct (submit c w0) as [w' r] eqn:E. by eapply submitScore_consistent.
Qed.

Lemma run_submissions_fk cs w :
  db_fk (db w) → db_fk (db (run_submissions cs w)).
Proof.
  apply run_submissions_invariant. intros c w0.
  destruct (submit c w0) as [w' r] eqn:E. by eapply submitScore_fk.
Qed.

Lemma empty_db_consistent : db_consistent empty_db.
Proof. intros u row H. simpl in H. by rewrite lookup_empty in H. Qed.

Lemma empty_db_fk : db_fk empty_db.
Proof. apply map_Forall_empty. Qed.

(** C1. After any sequence of submissions run one after another, from any
    state of the store, a submission that succeeds leaves the player's
    aggregate row with [total_score] equal to SUM(score) over all of the
    player's sessions, the one just inserted included: the session log has
    grown by exactly that session and the sum by exactly its score. *)
Theorem submit_total_is_sum_of_sessions
    (w0 : World) (earlier : list Submission) (c : Submission)
    (w' : World) (v : Js.value) :
  submit c (run_submissions earlier w0) = (w', Ok v) →
  let w := run_submissions earlier w0 in
  let u := sub_userId c in
  ∃ row,
    leaderboards (db w') !! u = Some row ∧
    total_score row = player_sum u (db w') ∧
    game_sessions (db w') =
      game_sessions (db w) ++
        [mkGameSession u (sub_score c) (default "solo" (sub_gameMode c))
           (now (sub_env c))] ∧
    player_sum u (db w') = player_sum u (db w) + sub_score c.
Proof.
  intros H w u. apply submitScore_Ok_committed in H as [res Hb].
  apply body_Ok in Hb as (row & Hs & Hl & Ht & _).
  pose proof (player_sum_after _ _ _ _ _ _ u Hs) as Hsum.
  rewrite decide_True in Hsum by done.
  exists row. split; [by rewrite Hl, lookup_insert_eq|].
  split; [|split]; [|done|done]. fold w u in Ht. rewrite Hsum. done.
Qed.

Definition c1_earlier : list Submission :=
  [mkSubmission (healthy 10) 7 100 None;
   mkSubmission (healthy 11) 8 300 (Some "team")].
Definition c1_call : Submission := mkSubmission (healthy 12) 7 50 None.
Definition c1_after : World :=
  (submit c1_call (run_submissions c1_earlier empty_world)).1.

Lemma submit_total_is_sum_of_sessions_witness :
  ∃ row,
    leaderboards (db c1_after) !! 7 = Some row ∧
    total_score row = player_sum 7 (db c1_after) ∧
    game_sessions (db c1_after) =
      game_sessions (db (run_submissions c1_earlier empty_world)) ++
        [mkGameSession 7 50 "solo" 12] ∧
    player_sum 7 (db c1_after) =
      player_sum 7 (db (run_submissions c1_earlier empty_world)) + 50.
Proof.
  apply (submit_total_is_sum_of_sessions empty_world c1_earlier c1_call
           c1_after Js.Undefined).
  vm_compute. reflexivity.
Defined.

(** The total is recomputed, not incremented: an aggregate row that had
    drifted (999 where the one logged session sums to 100) is exact again
    after the player's next submission. *)
Definition drifted : World :=
  mkWorld
    (mkDB {[ 7 := mkUser "user_7" 0 ]} [mkGameSession 7 100 "solo" 0]
       {[ 7 := mkLeaderboard 999 None ]})
    ∅ [].

Example submit_repairs_drifted_total :
  total_of (db drifted) 7 = Some 999 ∧
  total_of (db (Service.submitScore (healthy 1) 7 50 None drifted).1) 7
    = Some 150.
Proof. vm_compute. split; reflexivity. Qed.

(** From a consistent store (the empty one in particular), every aggregate
    row, not only the submitter's, holds its player's sum after any
    sequence of submissions. *)
Lemma sum_invariant_all_players cs u row :
  leaderboards (db (run_submissions cs empty_world)) !! u = Some row →
  total_score row = player_sum u (db (run_submissions cs empty_world)).
Proof. apply run_submissions_consistent, empty_db_consistent. Qed.

(** ** RANK() is "one more than the number of strictly greater scores" *)

Section window_facts.
Context {A : Type} (score : A → Z).

Global Instance desc_total : Total (desc score).
Proof. intros a b. unfold desc. lia. Qed.

Global Instance desc_trans : Transitive (desc score).
Proof. intros a b c. unfold desc. lia. Qed.

Lemma count_greater_app x l1 l2 :
  count_greater score x (l1 ++ l2) =
    count_greater score x l1 + count_greater score x l2.
Proof. unfold count_greater. rewrite filter_app, length_app. lia. Qed.

Lemma count_greater_perm x l1 l2 :
  l1 ≡ₚ l2 → count_greater score x l1 = count_greater score x l2.
Proof. intros H. unfold count_greater. by rewrite H. Qed.

Lemma count_greater_none x l :
  Forall (λ r, score r ≤ x) l → count_greater score x l = 0.
Proof.
  induction 1 as [|r l Hr _ IH]; [done|].
  unfold count_greater in *. rewrite filter_cons.
  case_decide; [lia|done].
Qed.

Lemma count_greater_all x l :
  Forall (λ r, x < score r) l → count_greater score x l = Z.of_nat (length l).
Proof.
  induction 1 as [|r l Hr _ IH]; [done|].
  unfold count_greater in *. rewrite filter_cons.
  case_decide; [|done]. simpl. lia.
Qed.

Lemma count_greater_nonneg x l : 0 ≤ count_greater score x l.
Proof. unfold count_greater. lia. Qed.

Lemma count_greater_le x l : count_greater score x l ≤ Z.of_nat (length l).
Proof. unfold count_greater. pose proof (length_filter (λ r, x < score r) l). lia. Qed.

(** The state the walk carries is the last row seen and its rank. *)
Definition prev_ok (pre : list A) (prev : option (Z * Z)) : Prop :=
  match prev with
  | None => pre = []
  | Some (s, k) =>
      ∃ pre' p, pre = pre' ++ [p] ∧ score p = s ∧
                k = count_greater score s pre + 1
  end.

Lemma rank_walk_fst pos prev rows : (rank_walk score pos prev rows).*1 = rows.
Proof.
  revert pos prev. induction rows as [|r rows IH]; intros pos prev; [done|].
  simpl. by rewrite IH.
Qed.

Lemma rank_walk_count pre rows pos prev r rk :
  StronglySorted (desc score) (pre ++ rows) →
  pos = Z.of_nat (length pre) + 1 →
  prev_ok pre prev →
  (r, rk) ∈ rank_walk score pos prev rows →
  rk = count_greater score (score r) (pre ++ rows) + 1.
Proof.
  revert pre pos prev. induction rows as [|x rows IH]; intros pre pos prev.
  { intros _ _ _ H. by apply elem_of_nil in H. }
  intros Hsort Hpos Hprev Hin.
  (* the rank given to the head row *)
  set (k0 := match prev with
             | Some (s, k) => if decide (s = score x) then k else pos
             | None => pos
             end).
  assert (Htail : Forall (λ y, score y ≤ score x) (x :: rows)).
  { apply StronglySorted_app_1_r, StronglySorted_cons in Hsort as [Hx _].
    constructor; [lia|]. eapply Forall_impl; [exact Hx|]. by unfold desc. }
  assert (Hk0 : k0 = count_greater score (score x) pre + 1).
  { subst k0. destruct prev as [[s k]|]; simpl in Hprev.
    - destruct Hprev as (pre' & p & Hpre & Hp & Hk).
      case_decide as Hs; [by rewrite <- Hs|].
      rewrite count_greater_all; [lia|].
      apply Forall_forall. intros y Hy.
      assert (score x ≤ score p) as Hxp.
      { apply (StronglySorted_app_1_elem_of _ _ _ p x) in Hsort; [done| |].
        - subst pre. apply elem_of_app. right. by apply list_elem_of_singleton.
        - apply elem_of_cons. by left. }
      assert (score p ≤ score y); [|lia].
      subst pre. apply elem_of_app in Hy as [Hy|Hy].
      + apply StronglySorted_app_1_l in Hsort.
        apply (StronglySorted_app_1_elem_of _ _ _ y p) in Hsort;
          [done|done|by apply list_elem_of_singleton].
      + apply list_elem_of_singleton in Hy. by subst y.
    - subst pre pos. done. }
  simpl in Hin. fold k0 in Hin. apply elem_of_cons in Hin as [Heq|Hin].
  - inversion Heq; subst r rk.
    rewrite count_greater_app, (count_greater_none _ (x :: rows)) by done. lia.
  - replace (pre ++ x :: rows) with ((pre ++ [x]) ++ rows)
      by (by rewrite <- app_assoc).
    apply (IH (pre ++ [x]) (pos + 1) (Some (score x, k0))); [| | |done].
    + by rewrite <- app_assoc.
    + rewrite length_app. simpl. lia.
    + exists pre, x. split; [done|]. split; [done|].
      rewrite count_greater_app, (count_greater_none _ [x]); [lia|].
      constructor; [lia|done].
Qed.

Lemma count_greater_fmap x l :
  count_greater score x l = count_greater id x (score <$> l).
Proof.
  unfold count_greater. f_equal. induction l as [|r l IH]; [done|].
  rewrite fmap_cons, !filter_cons. simpl. case_decide; simpl; by rewrite IH.
Qed.

Lemma count_equal_fmap x l :
  count_equal score x l = count_equal id x (score <$> l).
Proof.
  unfold count_equal. f_equal. induction l as [|r l IH]; [done|].
  rewrite fmap_cons, !filter_cons. simpl. case_decide; simpl; by rewrite IH.
Qed.

(** With no score strictly between [lo] and [hi], the rows above [lo] are
    those above [hi] and those at [hi]. *)
Lemma count_greater_adjacent lo hi l :
  lo < hi →
  Forall (λ r, ¬ (lo < score r < hi)) l →
  count_greater score lo l =
    count_greater score hi l + count_equal score hi l.
Proof.
  intros Hlt. unfold count_greater, count_equal.
  induction 1 as [|r l Hr _ IH]; [done|].
  rewrite !filter_cons. repeat case_decide; simpl; lia.
Qed.

Lemma RANK_fst rows : (RANK score rows).*1 = order_by_desc score rows.
Proof. apply rank_walk_fst. Qed.

Lemma RANK_perm rows : (RANK score rows).*1 ≡ₚ rows.
Proof. rewrite RANK_fst. apply merge_sort_Permutation. Qed.

(** Every row's RANK() is one more than the count of rows with a strictly
    greater score. *)
Lemma RANK_count rows r rk :
  (r, rk) ∈ RANK score rows → rk = count_greater score (score r) rows + 1.
Proof.
  intros H. apply (rank_walk_count [] _ 1 None) in H; [| |done|done].
  - rewrite H. simpl. f_equal. apply count_greater_perm, merge_sort_Permutation.
  - simpl. apply StronglySorted_merge_sort; apply _.
Qed.

Lemma RANK_has rows r : r ∈ rows → ∃ rk, (r, rk) ∈ RANK score rows.
Proof.
  intros H. rewrite <- RANK_perm in H.
  apply list_elem_of_fmap in H as ([r' rk] & -> & H). by exists rk.
Qed.

End window_facts.

(** ** Full recalculation *)

Lemma ranked_fst (rows : gmap Z Leaderboard) :
  (ranked rows).*1 = ((RANK lb_score (map_to_list rows)).*1).*1.
Proof.
  unfold ranked. induction (RANK lb_score (map_to_list rows)) as [|[kv rk] l IH];
    [done|]. simpl in *. by f_equal.
Qed.

Lemma ranked_lookup (rows : gmap Z Leaderboard) u row :
  rows !! u = Some row →
  (list_to_map (ranked rows) : gmap Z Z) !! u =
    Some (count_greater lb_score (total_score row) (map_to_list rows) + 1).
Proof.
  intros Hu. apply elem_of_list_to_map_1.
  - rewrite ranked_fst, RANK_perm. apply NoDup_fst_map_to_list.
  - apply elem_of_map_to_list in Hu.
    destruct (RANK_has lb_score _ _ Hu) as [rk Hrk].
    pose proof (RANK_count lb_score _ _ _ Hrk) as Hc.
    unfold lb_score in Hc at 2. simpl in Hc. rewrite <- Hc.
    unfold ranked. apply list_elem_of_fmap. by exists ((u, row), rk).
Qed.

Lemma update_ranks_lookup (rows : gmap Z Leaderboard) u :
  update_ranks rows !! u =
    (λ row, mkLeaderboard (total_score row)
              (Some (count_greater lb_score (total_score row)
                       (map_to_list rows) + 1))) <$> rows !! u.
Proof.
  unfold update_ranks. rewrite map_lookup_imap.
  destruct (rows !! u) as [row|] eqn:E; simpl; [|done].
  by rewrite (ranked_lookup _ _ _ E).
Qed.

Lemma recalculateAllRanks_db env w w' v :
  Service.recalculateAllRanks env w = (w', Ok v) →
  users (db w') = users (db w) ∧
  game_sessions (db w') = game_sessions (db w) ∧
  leaderboards (db w') = update_ranks (leaderboards (db w)).
Proof.
  unfold Service.recalculateAllRanks. destruct (store_down env); [done|].
  intros H. by inversion H; subst.
Qed.

(** The rank a full recalculation writes: every row's [rank] becomes one
    more than the number of rows of the snapshot with a strictly greater
    total; totals are not touched. *)
Lemma recalculateAllRanks_rank env w w' v u :
  Service.recalculateAllRanks env w = (w', Ok v) →
  total_of (db w') u = total_of (db w) u ∧
  rank_of (db w') u =
    (λ t, players_above (db w) t + 1) <$> total_of (db w) u.
Proof.
  intros H. apply recalculateAllRanks_db in H as (_ & _ & Hl).
  unfold total_of, rank_of, players_above. rewrite Hl, update_ranks_lookup.
  by destruct (leaderboards (db w) !! u).
Qed.

Lemma count_greater_mono {A} (score : A → Z) x y l :
  y ≤ x → count_greater score x l ≤ count_greater score y l.
Proof.
  intros Hxy. unfold count_greater. apply inj_le.
  induction l as [|r l IH]; [done|].
  rewrite !filter_cons. repeat case_decide; simpl; lia.
Qed.

Lemma count_greater_strict {A} (score : A → Z) x l r :
  r ∈ l → x < score r →
  count_greater score (score r) l < count_greater score x l.
Proof.
  intros Hin Hlt. unfold count_greater. apply inj_lt.
  induction l as [|r' l IH]; [by apply elem_of_nil in Hin|].
  pose proof (count_greater_mono score (score r) x l ltac:(lia)) as Hm.
  unfold count_greater in Hm.
  rewrite !filter_cons. apply elem_of_cons in Hin as [<-|Hin].
  - rewrite decide_False by lia. rewrite decide_True by done. simpl. lia.
  - specialize (IH Hin). repeat case_decide; simpl; lia.
Qed.

(** C9. Rank monotonicity: if player A's total exceeds player B's in the
    snapshot a full recalculation runs over, then afterwards both have a
    rank and rank(A) <= rank(B). *)
Theorem full_recalculation_monotone
    (env : Env) (w w' : World) (v : Js.value) (a b ta tb : Z) :
  Service.recalculateAllRanks env w = (w', Ok v) →
  total_of (db w) a = Some ta →
  total_of (db w) b = Some tb →
  ta > tb →
  ∃ ka kb,
    rank_of (db w') a = Some ka ∧ rank_of (db w') b = Some kb ∧ ka ≤ kb.
Proof.
  intros H Ha Hb Hgt.
  destruct (recalculateAllRanks_rank _ _ _ _ a H) as [_ Hra].
  destruct (recalculateAllRanks_rank _ _ _ _ b H) as [_ Hrb].
  rewrite Ha in Hra. rewrite Hb in Hrb. simpl in *.
  eexists _, _. split; [exact Hra|]. split; [exact Hrb|].
  unfold players_above.
  pose proof (count_greater_mono lb_score ta tb
                (map_to_list (leaderboards (db w))) ltac:(lia)). lia.
Qed.

(** Three players, two of them tied at the top, then a full recalculation. *)
Definition tied_before : World :=
  run_submissions
    [mkSubmission (healthy 1) 1 200 None;
     mkSubmission (healthy 2) 2 200 None;
     mkSubmission (healthy 3) 3 100 None] empty_world.

Definition tied_after : World :=
  (Service.recalculateAllRanks (healthy 4) tied_before).1.

Lemma full_recalculation_monotone_witness :
  ∃ ka kb,
    rank_of (db tied_after) 1 = Some ka ∧
    rank_of (db tied_after) 3 = Some kb ∧ ka ≤ kb.
Proof.
  apply (full_recalculation_monotone (healthy 4) tied_before tied_after
           Service.recalculated 1 3 200 100).
  - vm_compute. reflexivity.
  - vm_compute. reflexivity.
  - vm_compute. reflexivity.
  - reflexivity.
Defined.

(** In fact the inequality is strict. *)
Lemma full_recalculation_strict env w w' v a b ta tb :
  Service.recalculateAllRanks env w = (w', Ok v) →
  total_of (db w) a = Some ta → total_of (db w) b = Some tb → tb < ta →
  ∃ ka kb,
    rank_of (db w') a = Some ka ∧ rank_of (db w') b = Some kb ∧ ka < kb.
Proof.
  intros H Ha Hb Hgt.
  destruct (recalculateAllRanks_rank _ _ _ _ a H) as [_ Hra].
  destruct (recalculateAllRanks_rank _ _ _ _ b H) as [_ Hrb].
  rewrite Ha in Hra. rewrite Hb in Hrb. simpl in *.
  eexists _, _. split; [exact Hra|]. split; [exact Hrb|].
  unfold total_of in Ha. destruct (leaderboards (db w) !! a) as [ra|] eqn:Ea;
    [|done]. inversion Ha; subst ta.
  apply elem_of_map_to_list in Ea.
  pose proof (count_greater_strict lb_score tb _ _ Ea Hgt) as Hs.
  unfold players_above. unfold lb_score in Hs at 2. simpl in Hs. lia.
Qed.

(** *** Dense ranking, as the specification words it *)

(** No aggregate row has a total strictly between [lo] and [hi]. *)
Definition adjacent_totals (d : DB) (lo hi : Z) : Prop :=
  lo < hi ∧ ∀ c tc, total_of d c = Some tc → ¬ (lo < tc < hi).

(** Equal totals share a rank, and the next distinct lower total has that
    rank plus one. *)
Definition dense_ranking (d : DB) : Prop :=
  (∀ a b t, total_of d a = Some t → total_of d b = Some t →
            is_Some (rank_of d a) ∧ rank_of d a = rank_of d b) ∧
  (∀ a b ta tb k,
     total_of d a = Some ta → total_of d b = Some tb →
     adjacent_totals d tb ta →
     rank_of d a = Some k → rank_of d b = Some (k + 1)).

Lemma total_of_elem d c tc :
  total_of d c = Some tc → tc ∈ lb_score <$> map_to_list (leaderboards d).
Proof.
  unfold total_of. destruct (leaderboards d !! c) as [row|] eqn:E; [|done].
  intros [= <-]. apply elem_of_map_to_list in E.
  apply list_elem_of_fmap. by exists (c, row).
Qed.

(** C5, counterexample: with two players tied at 200 and one at 100, the
    full recalculation ranks them 1, 1 and 3; the next distinct lower total
    does not get rank 2. *)
Lemma dense_ranking_fails_after_tie : ¬ dense_ranking (db tied_after).
Proof.
  intros [_ Hnext].
  assert (rank_of (db tied_after) 3 = Some (1 + 1)) as H; [|by vm_compute in H].
  apply (Hnext 1 3 200 100); [by vm_compute..| |by vm_compute].
  split; [lia|]. intros c tc Hc%total_of_elem.
  replace (lb_score <$> map_to_list (leaderboards (db tied_after)))
    with [100; 200; 200] in Hc by (vm_compute; reflexivity).
  repeat (apply elem_of_cons in Hc as [->|Hc]); [lia..|].
  by apply elem_of_nil in Hc.
Qed.

Lemma update_ranks_fmap (rows : gmap Z Leaderboard) :
  update_ranks rows =
    (λ row, mkLeaderboard (total_score row)
              (Some (count_greater lb_score (total_score row)
                       (map_to_list rows) + 1))) <$> rows.
Proof.
  apply map_eq. intros u. by rewrite update_ranks_lookup, lookup_fmap.
Qed.

Lemma update_ranks_scores (rows : gmap Z Leaderboard) :
  lb_score <$> map_to_list (update_ranks rows) = lb_score <$> map_to_list rows.
Proof.
  rewrite update_ranks_fmap, map_to_list_fmap, <- list_fmap_compose.
  apply list_fmap_ext. by intros i [k row] _.
Qed.

Lemma recalculateAllRanks_counts env w w' v x :
  Service.recalculateAllRanks env w = (w', Ok v) →
  players_above (db w') x = players_above (db w) x ∧
  players_tied (db w') x = players_tied (db w) x.
Proof.
  intros H. apply recalculateAllRanks_db in H as (_ & _ & Hl).
  unfold players_above, players_tied.
  rewrite !(count_greater_fmap lb_score), !(count_equal_fmap lb_score).
  by rewrite Hl, update_ranks_scores.
Qed.

(** C5, as the code has it: after a full recalculation every rank is one
    more than the number of players with a strictly greater total, so
    players with equal totals share a rank, and the players at the next
    distinct lower total get that rank plus the number of players tied at
    the higher total (a gap follows every tie). *)
Theorem full_recalculation_competition_ranking
    (env : Env) (w w' : World) (v : Js.value) :
  Service.recalculateAllRanks env w = (w', Ok v) →
  (∀ a t, total_of (db w') a = Some t →
          rank_of (db w') a = Some (players_above (db w') t + 1)) ∧
  (∀ a b t, total_of (db w') a = Some t → total_of (db w') b = Some t →
            is_Some (rank_of (db w') a) ∧
            rank_of (db w') a = rank_of (db w') b) ∧
  (∀ a b ta tb k,
     total_of (db w') a = Some ta → total_of (db w') b = Some tb →
     adjacent_totals (db w') tb ta →
     rank_of (db w') a = Some k →
     rank_of (db w') b = Some (k + players_tied (db w') ta)).
Proof.
  intros H.
  assert (Hrank : ∀ a t, total_of (db w') a = Some t →
            rank_of (db w') a = Some (players_above (db w') t + 1)).
  { intros a t Ha. destruct (recalculateAllRanks_rank _ _ _ _ a H) as [Ht Hr].
    rewrite Ht in Ha. rewrite Hr, Ha. simpl.
    by destruct (recalculateAllRanks_counts _ _ _ _ t H) as [-> _]. }
  split; [exact Hrank|]. split.
  - intros a b t Ha Hb. rewrite (Hrank _ _ Ha), (Hrank _ _ Hb). eauto.
  - intros a b ta tb k Ha Hb [Hlt Hadj] Hk.
    rewrite (Hrank _ _ Ha) in Hk. inversion Hk; subst k.
    rewrite (Hrank _ _ Hb). f_equal. unfold players_above, players_tied.
    rewrite (count_greater_adjacent lb_score tb ta); [lia|done|].
    apply Forall_forall. intros [c row] Hin. apply elem_of_map_to_list in Hin.
    apply (Hadj c). unfold total_of. by rewrite Hin.
Qed.

Lemma full_recalculation_competition_ranking_witness :
  (∀ a t, total_of (db tied_after) a = Some t →
          rank_of (db tied_after) a = Some (players_above (db tied_after) t + 1)) ∧
  (∀ a b t, total_of (db tied_after) a = Some t →
            total_of (db tied_after) b = Some t →
            is_Some (rank_of (db tied_after) a) ∧
            rank_of (db tied_after) a = rank_of (db tied_after) b) ∧
  (∀ a b ta tb k,
     total_of (db tied_after) a = Some ta →
     total_of (db tied_after) b = Some tb →
     adjacent_totals (db tied_after) tb ta →
     rank_of (db tied_after) a = Some k →
     rank_of (db tied_after) b = Some (k + players_tied (db tied_after) ta)).
Proof.
  apply (full_recalculation_competition_ranking (healthy 4) tied_before
           tied_after Service.recalculated).
  vm_compute. reflexivity.
Defined.

(** On the example: ranks 1, 1 and 3. *)
Example tied_after_ranks :
  rank_of (db tied_after) <$> [1; 2; 3] = [Some 1; Some 1; Some 3].
Proof. vm_compute. reflexivity. Qed.

(** ** The submission result and the post-commit side effects *)

(** The transaction's value has no property [leaderboardsEntry] (its
    properties are [gameSession], [leaderboardEntry], [totalScore]), so a
    submission that does not throw returns [undefined]. *)
Lemma submitScore_returns_undefined env u s m w w' v :
  Service.submitScore env u s m w = (w', Ok v) → v = Js.Undefined.
Proof.
  intros H. pose proof H as [res Hb]%submitScore_Ok_committed.
  apply body_Ok in Hb as (row & _ & _ & _ & _ & _ & _ & _ & Hres).
  revert H. unfold Service.submitScore, Tx.transaction.
  destruct (store_down env); [done|].
  destruct (Tx.body _ _ _ _ _) as [[d' res']|e] eqn:E; [|done].
  apply body_Ok in E as (row' & _ & _ & _ & _ & _ & _ & _ & ->).
  after_commit env; simpl; intros [= _ <-]; done.
Qed.

(** POST /submit never answers 200 to a valid body: the controller reads
    [result.userId] off the [undefined] it was handed. *)
Lemma post_submit_valid_is_500 env user_id score game_mode w :
  is_Some (Validation.submitScoreSchema user_id score game_mode) →
  status (Controller.post_submit env user_id score game_mode w).2 = 500.
Proof.
  intros [[[uid sc] mode] Hv]. unfold Controller.post_submit. rewrite Hv.
  unfold Controller.submitScore.
  destruct (Service.submitScore env uid sc (Some mode) w) as [w' [v|e]] eqn:E.
  - apply submitScore_returns_undefined in E as ->. done.
  - assert (e = Service.failed_submit) as ->; [|done].
    revert E. unfold Service.submitScore.
    destruct (Tx.transaction _ _ _ _ _) as [[d' res]|e']; [|by intros [= _ <-]].
    after_commit env; simpl; try (by intros [= _ <-]);
      destruct (Js.get res "leaderboardsEntry"); simpl; by intros [= _ <-].
Qed.

(** C2, evaluated: a first submission of 100 points by player 1, nothing
    failing.  The transaction commits (one session, aggregate total 100),
    the service returns [undefined], and the response is a 500 carrying the
    TypeError instead of [{userId: 1, totalScore: 100, submittedAt}]. *)
Theorem valid_submission_is_answered_500 :
  let '(w', res) := Controller.post_submit (healthy 0) 1 100 None empty_world in
  (Service.submitScore (healthy 0) 1 100 (Some "solo") empty_world).2
    = Ok Js.Undefined ∧
  total_of (db w') 1 = Some 100 ∧
  player_sum 1 (db w') = 100 ∧
  status res = 500 ∧
  Js.get (body res) "error"
    = Ok (Js.Str "Cannot read properties of undefined (reading 'userId')") ∧
  Js.get (body res) "data" = Ok Js.Undefined.
Proof. vm_compute. repeat split; reflexivity. Qed.

(** Failed cache deletions never change what [submitScore] returns nor what
    it commits. *)
Definition with_del_faults (f : string → bool) (env : Env) : Env :=
  mkEnv (now env) (store_down env) (redis_get_down env) (redis_setex_down env)
    f (queue_down env) (LEADERBOARD_CACHE_TTL env) (RANK_CACHE_TTL env)
    (RANK_RECALCULATION_ENABLED env).

Lemma submitScore_cache_faults_swallowed env f u s m w :
  (Service.submitScore (with_del_faults f env) u s m w).2
    = (Service.submitScore env u s m w).2 ∧
  db (Service.submitScore (with_del_faults f env) u s m w).1
    = db (Service.submitScore env u s m w).1.
Proof.
  unfold Service.submitScore, Tx.transaction, addRankRecalculationJob. simpl.
  destruct (store_down env); [done|].
  destruct (Tx.body _ _ _ _ _) as [[d' res]|e]; [|done].
  destruct (RANK_RECALCULATION_ENABLED env); [destruct (queue_down env)|]; done.
Qed.

(** A failed enqueue, on the other hand, turns a committed submission into
    a reported failure. *)
Lemma submitScore_enqueue_fault env u s m w :
  RANK_RECALCULATION_ENABLED env = true → queue_down env = true →
  (Service.submitScore env u s m w).2 = Err Service.failed_submit.
Proof.
  intros He Hq. unfold Service.submitScore, addRankRecalculationJob.
  rewrite He, Hq. by destruct (Tx.transaction _ _ _ _ _) as [[??]|?].
Qed.

Definition queue_unreachable (t : Z) : Env :=
  mkEnv t false false false (λ _, false) true 60 30 true.

(** C3, evaluated: player 1 submits 100 points while only the queue is
    unreachable.  The transaction has committed (session logged, aggregate
    total 100), yet the caller is told the submission failed. *)
Theorem enqueue_failure_fails_committed_submission :
  let '(w', r) :=
    Service.submitScore (queue_unreachable 0) 1 100 None empty_world in
  r = Err (AppError "Failed to submit score. Please try again." 500) ∧
  game_sessions (db w') = [mkGameSession 1 100 "solo" 0] ∧
  total_of (db w') 1 = Some 100 ∧
  queue w' = [].
Proof. vm_compute. repeat split; reflexivity. Qed.

(** ** The rank-recalculation worker *)

(** A job that is not a full recalculation changes nothing at all. *)
Lemma worker_not_full_is_noop env job w :
  fullRecalculation job = false →
  Worker.rankRecalculationWorker env job w = (w, Ok (Worker.processed env)).
Proof.
  intros H. unfold Worker.rankRecalculationWorker. rewrite H.
  by destruct (incremental job && Worker.truthy_id (job_userId job)).
Qed.

(** Player 3 (rank 3 of the example above) submits 500 more points and
    now leads with 600. *)
Definition overtaken : World :=
  (submit (mkSubmission (healthy 5) 3 500 None) tied_after).1.

(** C6, evaluated: the incremental job that this submission enqueued is
    processed successfully, and player 3's rank column still reads 3 where
    "count of strictly greater totals + 1" is 1. *)
Theorem incremental_job_leaves_rank_stale :
  let job := mkJobData (Some 3) false true in
  data <$> last (queue overtaken) = Some job ∧
  Worker.rankRecalculationWorker (healthy 6) job overtaken
    = (overtaken, Ok (Worker.processed (healthy 6))) ∧
  total_of (db overtaken) 3 = Some 600 ∧
  players_above (db overtaken) 600 + 1 = 1 ∧
  rank_of (db overtaken) 3 = Some 3.
Proof. vm_compute. repeat split; reflexivity. Qed.

(** ** The Top-N read path *)

(** A live entry under the one key [leaderboard:top10] answers every
    request, whatever its limit. *)
Lemma getTopPlayers_hit_ignores_limit env n m w cached :
  redis_get env CACHE_KEYS.TOP_LEADERBOARD (cache w) = Ok (Some cached) →
  Service.getTopPlayers env n w = (w, Ok cached) ∧
  Service.getTopPlayers env m w = (w, Ok cached).
Proof. intros H. unfold Service.getTopPlayers. by rewrite H. Qed.

(** On a miss, with store and cache responding, the caller gets the first
    [limit] rows of the ranked query and the same array is cached under
    [leaderboard:top10]. *)
Lemma getTopPlayers_miss env limit w :
  no_faults env → 0 ≤ limit →
  cache w !! CACHE_KEYS.TOP_LEADERBOARD = None →
  let rows := take (Z.to_nat limit) (RANK j_total_score (join_users (db w))) in
  Service.getTopPlayers env limit w =
    (mkWorld (db w)
       (<[CACHE_KEYS.TOP_LEADERBOARD :=
            mkEntry (LEADERBOARD_CACHE_TTL env)
              (Js.Arr (Service.player_obj <$> rows))]> (cache w))
       (queue w),
     Ok (Js.Arr (Service.player_obj <$> rows))).
Proof.
  intros (Hs & Hg & Hx & _) Hl Hc. unfold Service.getTopPlayers, redis_get,
    top_query, redis_setex. rewrite Hg, Hs, Hx, Hc. simpl.
  by rewrite decide_False by lia.
Qed.

(** The rows of the ranked query: all joined rows, by total descending,
    each with one more than the number of strictly greater totals. *)
Lemma RANK_join_sorted d :
  StronglySorted (desc j_total_score) (RANK j_total_score (join_users d)).*1 ∧
  (RANK j_total_score (join_users d)).*1 ≡ₚ join_users d ∧
  ∀ r rk, (r, rk) ∈ RANK j_total_score (join_users d) →
          rk = count_greater j_total_score (j_total_score r) (join_users d) + 1.
Proof.
  split; [|split].
  - rewrite RANK_fst. apply StronglySorted_merge_sort; apply _.
  - apply RANK_perm.
  - apply RANK_count.
Qed.

Lemma join_users_length d :
  db_fk d → length (join_users d) = size (leaderboards d).
Proof.
  intros Hfk. rewrite <- length_map_to_list. unfold join_users.
  assert (Forall (λ kv : Z * Leaderboard, is_Some (users d !! kv.1))
            (map_to_list (leaderboards d))) as Hall.
  { apply Forall_forall. intros [uid row] Hin%elem_of_map_to_list.
    by apply (Hfk uid row). }
  induction Hall as [|[uid row] l [usr Husr] _ IH]; [done|].
  simpl in *. rewrite Husr. simpl. by f_equal.
Qed.

Lemma RANK_length {A} (score : A → Z) rows :
  length (RANK score rows) = length rows.
Proof.
  rewrite <- (length_fmap fst), RANK_fst. unfold order_by_desc.
  by rewrite merge_sort_Permutation.
Qed.

(** On a miss the caller gets [limit] players, or all of them if there are
    fewer. *)
Lemma getTopPlayers_miss_length env limit w :
  db_fk (db w) → no_faults env → 0 ≤ limit →
  cache w !! CACHE_KEYS.TOP_LEADERBOARD = None →
  ∃ players,
    (Service.getTopPlayers env limit w).2 = Ok (Js.Arr players) ∧
    length players = Nat.min (Z.to_nat limit) (size (leaderboards (db w))).
Proof.
  intros Hfk Hnf Hl Hc. rewrite (getTopPlayers_miss _ _ _ Hnf Hl Hc). simpl.
  eexists. split; [done|].
  by rewrite length_fmap, length_take, RANK_length, join_users_length.
Qed.

(** C7, evaluated: three players in the table, nothing failing.
    [getTop(1)] is served from the store and cached; [getTop(3)] right
    after is answered with that same one-element array, where the top
    three players were asked for. *)
Theorem top_cache_serves_other_limit :
  let '(w1, r1) := Service.getTopPlayers (healthy 5) 1 tied_before in
  let '(w2, r2) := Service.getTopPlayers (healthy 6) 3 w1 in
  size (leaderboards (db w1)) = 3%nat ∧
  r1 = Ok (Js.Arr [Js.Obj [("userId", Js.Num 1); ("username", Js.Str "user_1");
                           ("totalScore", Js.Num 200); ("rank", Js.Num 1)]]) ∧
  r2 = r1 ∧
  (Service.getTopPlayers (healthy 6) 3 tied_before).2 =
    Ok (Js.Arr [Js.Obj [("userId", Js.Num 1); ("username", Js.Str "user_1");
                        ("totalScore", Js.Num 200); ("rank", Js.Num 1)];
                Js.Obj [("userId", Js.Num 2); ("username", Js.Str "user_2");
                        ("totalScore", Js.Num 200); ("rank", Js.Num 1)];
                Js.Obj [("userId", Js.Num 3); ("username", Js.Str "user_3");
                        ("totalScore", Js.Num 100); ("rank", Js.Num 3)]]).
Proof. vm_compute. repeat split; reflexivity. Qed.

(** ** The per-player read path *)

(** The answer computed from the table: the player's row, one more than
    the number of rows with a strictly greater total, and the row count. *)
Definition rank_answer (d : DB) (u : Z) (row : Leaderboard) (name : string)
    : Js.value :=
  Service.rank_obj
    (mkRankRow u name (total_score row)
       (players_above d (total_score row) + 1)
       (Z.of_nat (size (leaderboards d)))).

(** [getRank] as the specification words it, for one call. *)
Definition getRank_contract (env : Env) (u : Z) (w : World) : Prop :=
  let r := (Service.getPlayerRank env u w).2 in
  (∀ row, leaderboards (db w) !! u = Some row →
          ∃ name, r = Ok (rank_answer (db w) u row name)) ∧
  (r = Err Service.not_found ↔ leaderboards (db w) !! u = None).

Lemma getPlayerRank_hit env u w cached :
  redis_get_down env = false →
  payload <$> cache w !! CACHE_KEYS.USER_RANK u = Some cached →
  Service.getPlayerRank env u w = (w, Ok cached).
Proof.
  intros Hg Hc. unfold Service.getPlayerRank, redis_get. by rewrite Hg, Hc.
Qed.

Lemma getPlayerRank_miss env u w row usr :
  no_faults env →
  cache w !! CACHE_KEYS.USER_RANK u = None →
  leaderboards (db w) !! u = Some row →
  users (db w) !! u = Some usr →
  Service.getPlayerRank env u w =
    (mkWorld (db w)
       (<[CACHE_KEYS.USER_RANK u :=
            mkEntry (RANK_CACHE_TTL env)
              (rank_answer (db w) u row (username usr))]> (cache w))
       (queue w),
     Ok (rank_answer (db w) u row (username usr))).
Proof.
  intros (Hs & Hg & Hx & _) Hc Hrow Husr.
  unfold Service.getPlayerRank, redis_get, rank_query, redis_setex.
  rewrite Hg, Hs, Hx, Hc, Hrow, Husr. done.
Qed.

Lemma getPlayerRank_miss_absent env u w :
  no_faults env →
  cache w !! CACHE_KEYS.USER_RANK u = None →
  leaderboards (db w) !! u = None →
  Service.getPlayerRank env u w = (w, Err Service.not_found).
Proof.
  intros (Hs & Hg & Hx & _) Hc Hrow.
  unfold Service.getPlayerRank, redis_get, rank_query.
  rewrite Hg, Hs, Hc, Hrow. done.
Qed.

(** NotFound is only ever raised off the store, for a player whose join
    row is missing. *)
Lemma getPlayerRank_not_found env u w :
  (Service.getPlayerRank env u w).2 = Err Service.not_found →
  cache w !! CACHE_KEYS.USER_RANK u = None ∧
  (leaderboards (db w) !! u = None ∨ users (db w) !! u = None).
Proof.
  unfold Service.getPlayerRank, redis_get, rank_query, redis_setex.
  destruct (redis_get_down env); [done|].
  destruct (cache w !! CACHE_KEYS.USER_RANK u) as [e|]; [done|]. simpl.
  destruct (store_down env); [done|].
  destruct (leaderboards (db w) !! u) as [row|]; simpl; [|by auto].
  destruct (users (db w) !! u) as [usr|]; simpl; [|by auto].
  by destruct (redis_setex_down env).
Qed.

(** Player 1 submits 100 and reads their rank (1 of 1, now cached); player
    2 then submits 200, which invalidates the Top-N entry and player 2's
    keys only. *)
Definition stale_rank : World :=
  let w1 := (submit (mkSubmission (healthy 1) 1 100 None) empty_world).1 in
  let w2 := (Service.getPlayerRank (healthy 2) 1 w1).1 in
  (submit (mkSubmission (healthy 3) 2 200 None) w2).1.

(** C8, counterexample: in that state player 1 has one player above, yet
    [getRank(1)] answers the cached rank 1 of 1 player. *)
Lemma getRank_contract_fails_on_cached_rank :
  ¬ getRank_contract (healthy 4) 1 stale_rank.
Proof.
  intros [H _]. destruct (H (mkLeaderboard 100 None)) as [name Hr].
  { vm_compute. reflexivity. }
  vm_compute in Hr. congruence.
Qed.

Example stale_rank_served :
  (Service.getPlayerRank (healthy 4) 1 stale_rank).2 =
    Ok (Js.Obj [("userId", Js.Num 1); ("username", Js.Str "user_1");
                ("totalScore", Js.Num 100); ("rank", Js.Num 1);
                ("totalPlayers", Js.Num 1)]) ∧
  players_above (db stale_rank) 100 + 1 = 2 ∧
  size (leaderboards (db stale_rank)) = 2%nat.
Proof. vm_compute. repeat split; reflexivity. Qed.

(** Under the foreign key of [leaderboards], NotFound is never signalled
    for a player with an aggregate row, whatever the cache holds and
    whatever fails. *)
Lemma getPlayerRank_not_found_sound env u w :
  db_fk (db w) →
  (Service.getPlayerRank env u w).2 = Err Service.not_found →
  leaderboards (db w) !! u = None.
Proof.
  intros Hfk H%getPlayerRank_not_found. destruct H as [_ [H|H]]; [done|].
  destruct (leaderboards (db w) !! u) as [row|] eqn:Hrow; [|done].
  destruct (Hfk u _ Hrow) as [usr Husr]. congruence.
Qed.

(** ** Errors of [getPlayerRank] leave no trace *)

Lemma invalidate_keeps_absent env u (c : Cache) k :
  c !! k = None →
  invalidateUserCache env u (invalidateLeaderboardCache env c) !! k = None.
Proof.
  intros Hk. unfold invalidateUserCache, invalidateLeaderboardCache, redis_del.
  repeat match goal with
         | |- context [if ?b then _ else _] => destruct b
         end; simpl; rewrite ?lookup_delete_None; auto.
Qed.

Lemma submitScore_keeps_absent env u s m w k :
  cache w !! k = None → cache (Service.submitScore env u s m w).1 !! k = None.
Proof.
  intros Hk. unfold Service.submitScore.
  destruct (Tx.transaction _ _ _ _ _) as [[d' res]|e]; [|done].
  after_commit env; simpl; by apply invalidate_keeps_absent.
Qed.

(** Every entry [getPlayerRank] leaves in the cache was there before or is
    the answer it has just computed for a player with an aggregate row. *)
Lemma getPlayerRank_writes_only_answers env u w k e :
  cache (Service.getPlayerRank env u w).1 !! k = Some e →
  cache w !! k = Some e ∨
  (k = CACHE_KEYS.USER_RANK u ∧
   ∃ row name, leaderboards (db w) !! u = Some row ∧
               payload e = rank_answer (db w) u row name).
Proof.
  unfold Service.getPlayerRank.
  destruct (redis_get _ _ _) as [[?|]|]; [by left| |by left].
  unfold rank_query. destruct (store_down env); [by left|].
  destruct (leaderboards (db w) !! u) as [row|] eqn:Hrow; [|by left]. simpl.
  destruct (users (db w) !! u) as [usr|]; [|by left]. simpl.
  unfold redis_setex. destruct (redis_setex_down env); [by left|]. simpl.
  intros [[<- <-]|[_ H]]%lookup_insert_Some; [|by left].
  right. split; [done|]. by exists row, (username usr).
Qed.

(** C10. Whenever [getPlayerRank] throws (NotFound, or a store or cache
    failure), the whole state, the cache in particular, is exactly as
    before: the entry under the player's key is written only on the path
    that returns a result.  And after a NotFound, once the player has
    submitted successfully, the next undisturbed call is answered from the
    table: the player's total (the sum of their sessions) with its rank. *)
Theorem getPlayerRank_caches_no_absence
    (env : Env) (u : Z) (w w' : World) (e : Error) :
  Service.getPlayerRank env u w = (w', Err e) →
  w' = w ∧
  (e = Service.not_found →
   ∀ env2 s m w2 v env3,
     Service.submitScore env2 u s m w' = (w2, Ok v) →
     no_faults env3 →
     ∃ row name,
       leaderboards (db w2) !! u = Some row ∧
       total_score row = player_sum u (db w2) ∧
       (Service.getPlayerRank env3 u w2).2 = Ok (rank_answer (db w2) u row name)).
Proof.
  intros H.
  assert (w' = w) as ->.
  { revert H. unfold Service.getPlayerRank.
    destruct (redis_get _ _ _) as [[cached|]|]; [done| |by intros [= <- _]].
    destruct (rank_query _ _ _) as [[rankData|]|]; try (by intros [= <- _]).
    destruct (redis_setex _ _ _ _ _); [done|by intros [= <- _]]. }
  split; [done|]. intros -> env2 s m w2 v env3 Hsub Hnf.
  assert ((Service.getPlayerRank env u w).2 = Err Service.not_found) as Hnot
    by (by rewrite H).
  apply getPlayerRank_not_found in Hnot as [Hc _].
  pose proof (submitScore_keeps_absent env2 u s m w _ Hc) as Hc2.
  rewrite Hsub in Hc2. simpl in Hc2.
  apply submitScore_Ok_committed in Hsub as [res Hb].
  apply body_Ok in Hb as (row & Hs & Hl & Ht & _ & [usr Husr] & _).
  pose proof (player_sum_after _ _ _ _ _ _ u Hs) as Hsum.
  rewrite decide_True in Hsum by done.
  assert (leaderboards (db w2) !! u = Some row) as Hrow
    by (by rewrite Hl, lookup_insert_eq).
  exists row, (username usr). split; [done|]. split; [lia|].
  by rewrite (getPlayerRank_miss _ _ _ _ _ Hnf Hc2 Hrow Husr).
Qed.

Definition first_submission : World :=
  (Service.submitScore (healthy 8) 5 70 None empty_world).1.

Lemma getPlayerRank_caches_no_absence_witness :
  empty_world = empty_world ∧
  ∃ row name,
    leaderboards (db first_submission) !! 5 = Some row ∧
    total_score row = player_sum 5 (db first_submission) ∧
    (Service.getPlayerRank (healthy 9) 5 first_submission).2 =
      Ok (rank_answer (db first_submission) 5 row name).
Proof.
  destruct (getPlayerRank_caches_no_absence (healthy 7) 5 empty_world
              empty_world Service.not_found) as [Hsame Hlater].
  { vm_compute. reflexivity. }
  split; [exact Hsame|].
  apply (Hlater eq_refl (healthy 8) 70 None first_submission Js.Undefined
           (healthy 9)).
  - vm_compute. reflexivity.
  - repeat split; reflexivity.
Defined.

Example absence_then_fresh_rank :
  (Service.getPlayerRank (healthy 7) 5 empty_world).2 = Err Service.not_found ∧
  (Service.getPlayerRank (healthy 9) 5 first_submission).2 =
    Ok (Js.Obj [("userId", Js.Num 5); ("username", Js.Str "user_5");
                ("totalScore", Js.Num 70); ("rank", Js.Num 1);
                ("totalPlayers", Js.Num 1)]).
Proof. vm_compute. split; reflexivity. Qed.

(** ** Reachable states *)

(** One move of the system: a service call or a worker run under any
    environment, or the expiry of a cache key. *)
Inductive step : World → World → Prop :=
  | step_submit env u s m w :
      step w (Service.submitScore env u s m w).1
  | step_top env limit w :
      step w (Service.getTopPlayers env limit w).1
  | step_rank env u w :
      step w (Service.getPlayerRank env u w).1
  | step_job env job w :
      step w (Worker.rankRecalculationWorker env job w).1
  | step_expire k w :
      step w (mkWorld (db w) (expire k (cache w)) (queue w)).

Definition reachable_from (w0 : World) : World → Prop := rtc step w0.

(** A per-player entry is cached only for a player with an aggregate row. *)
Definition cache_sound (w : World) : Prop :=
  ∀ u e, cache w !! CACHE_KEYS.USER_RANK u = Some e →
         is_Some (leaderboards (db w) !! u).

Definition world_ok (w : World) : Prop :=
  db_fk (db w) ∧ db_consistent (db w) ∧ cache_sound w.

Lemma USER_RANK_inj u v :
  CACHE_KEYS.USER_RANK u = CACHE_KEYS.USER_RANK v → u = v.
Proof.
  unfold CACHE_KEYS.USER_RANK. intros H.
  apply (inj (String.app "leaderboard:rank:")) in H. by apply (inj pretty).
Qed.

Lemma USER_RANK_not_TOP u :
  CACHE_KEYS.USER_RANK u ≠ CACHE_KEYS.TOP_LEADERBOARD.
Proof. unfold CACHE_KEYS.USER_RANK, CACHE_KEYS.TOP_LEADERBOARD. cbn. discriminate. Qed.

Lemma invalidate_subset env u (c : Cache) k e :
  invalidateUserCache env u (invalidateLeaderboardCache env c) !! k = Some e →
  c !! k = Some e.
Proof.
  unfold invalidateUserCache, invalidateLeaderboardCache, redis_del.
  repeat match goal with
         | |- context [if ?b then _ else _] => destruct b
         end; simpl; intros H;
    repeat (apply lookup_delete_Some in H as [_ H]); done.
Qed.

Lemma invalidateLeaderboardCache_subset env (c : Cache) k e :
  invalidateLeaderboardCache env c !! k = Some e → c !! k = Some e.
Proof.
  unfold invalidateLeaderboardCache, redis_del.
  destruct (redis_del_down _ _); simpl; intros H;
    repeat (apply lookup_delete_Some in H as [_ H]); done.
Qed.

Lemma getTopPlayers_db env limit w :
  db (Service.getTopPlayers env limit w).1 = db w.
Proof.
  unfold Service.getTopPlayers.
  destruct (redis_get _ _ _) as [[?|]|]; [done| |done].
  destruct (top_query _ _ _); [|done]. by destruct (redis_setex _ _ _ _ _).
Qed.

Lemma getPlayerRank_db env u w :
  db (Service.getPlayerRank env u w).1 = db w.
Proof.
  unfold Service.getPlayerRank.
  destruct (redis_get _ _ _) as [[?|]|]; [done| |done].
  destruct (rank_query _ _ _) as [[?|]|]; [|done|done].
  by destruct (redis_setex _ _ _ _ _).
Qed.

Lemma update_ranks_is_Some (rows : gmap Z Leaderboard) u :
  is_Some (update_ranks rows !! u) ↔ is_Some (rows !! u).
Proof. rewrite update_ranks_lookup. apply fmap_is_Some. Qed.

Lemma step_world_ok w w' : step w w' → world_ok w → world_ok w'.
Proof.
  intros Hstep (Hfk & Hcons & Hcache). destruct Hstep.
  - (* submitScore *)
    destruct (Service.submitScore env u s m w) as [w' r] eqn:E. simpl.
    split; [by eapply submitScore_fk|]. split; [by eapply submitScore_consistent|].
    intros v e Hv.
    assert (cache w !! CACHE_KEYS.USER_RANK v = Some e) as Hw.
    { revert E Hv. unfold Service.submitScore.
      destruct (Tx.transaction _ _ _ _ _) as [[d' res]|?]; [|by intros [= <- _]].
      after_commit env; intros [= <- _]; simpl; apply invalidate_subset. }
    apply Hcache in Hw.
    destruct (submitScore_db _ _ _ _ _ _ _ E) as [[-> _]|[res Hb]]; [done|].
    apply body_Ok in Hb as (row & _ & -> & _).
    by apply lookup_insert_is_Some'; right.
  - (* getTopPlayers *)
    unfold world_ok, cache_sound. rewrite getTopPlayers_db.
    split; [done|]. split; [done|]. intros v e.
    unfold Service.getTopPlayers.
    destruct (redis_get _ _ _) as [[?|]|]; [by apply Hcache| |by apply Hcache].
    destruct (top_query _ _ _); [|by apply Hcache].
    unfold redis_setex. destruct (redis_setex_down env); [by apply Hcache|].
    simpl. rewrite lookup_insert_ne by (symmetry; apply USER_RANK_not_TOP).
    apply Hcache.
  - (* getPlayerRank *)
    unfold world_ok, cache_sound. rewrite getPlayerRank_db.
    split; [done|]. split; [done|]. intros v e.
    unfold Service.getPlayerRank.
    destruct (redis_get _ _ _) as [[?|]|]; [by apply Hcache| |by apply Hcache].
    unfold rank_query. destruct (store_down env); [by apply Hcache|].
    destruct (leaderboards (db w) !! u) as [row|] eqn:Hrow;
      [|by apply Hcache]. simpl.
    destruct (users (db w) !! u); [|by apply Hcache]. simpl.
    unfold redis_setex. destruct (redis_setex_down env); [by apply Hcache|].
    simpl. destruct (decide (u = v)) as [->|Hne]; [by rewrite Hrow|].
    rewrite lookup_insert_ne; [apply Hcache|].
    intros H. by apply Hne, USER_RANK_inj.
  - (* the worker *)
    unfold Worker.rankRecalculationWorker.
    destruct (fullRecalculation job);
      [|by destruct (incremental job && Worker.truthy_id (job_userId job))].
    destruct (Service.recalculateAllRanks env w) as [w' [v|e]] eqn:E; simpl.
    + pose proof E as (Hu & Hs & Hl)%recalculateAllRanks_db.
      split; [|split].
      * intros v0 row Hrow. unfold db_fk in Hfk. rewrite Hu.
        assert (is_Some (leaderboards (db w) !! v0)) as [row0 Hrow0].
        { apply update_ranks_is_Some. rewrite <- Hl. eauto. }
        by eapply Hfk.
      * intros v0 row Hrow. unfold player_sum. rewrite Hs.
        rewrite Hl, update_ranks_lookup in Hrow.
        destruct (leaderboards (db w) !! v0) as [row0|] eqn:Hrow0; [|done].
        inversion Hrow; subst row. simpl. by apply Hcons.
      * intros v0 e Hv0. rewrite Hl. apply update_ranks_is_Some.
        apply (Hcache v0 e). revert E Hv0. unfold Service.recalculateAllRanks.
        destruct (store_down env); [done|]. intros [= <- _]. simpl.
        apply invalidateLeaderboardCache_subset.
    + revert E. unfold Service.recalculateAllRanks.
      destruct (store_down env); [|done]. by intros [= <- _].
  - (* expiry *)
    split; [done|]. split; [done|]. intros v e. simpl. unfold expire.
    rewrite lookup_delete_Some. intros [_ H]. by eapply Hcache.
Qed.

Lemma reachable_world_ok w0 w :
  world_ok w0 → reachable_from w0 w → world_ok w.
Proof. intros H0 Hr. induction Hr; eauto using step_world_ok. Qed.

Lemma empty_world_ok : world_ok empty_world.
Proof.
  split; [apply empty_db_fk|]. split; [apply empty_db_consistent|].
  intros u e H. simpl in H. by rewrite lookup_empty in H.
Qed.

(** In every state the system can reach from the empty one, every
    aggregate row holds the sum of its player's sessions. *)
Lemma reachable_sum_invariant w u row :
  reachable_from empty_world w →
  leaderboards (db w) !! u = Some row → total_score row = player_sum u (db w).
Proof.
  intros Hr. destruct (reachable_world_ok _ _ empty_world_ok Hr) as (_ & Hc & _).
  apply Hc.
Qed.

(** ** [getRank] in the states the system can be in *)

(** C8, as the code has it.  In a state that keeps the store's foreign key
    and caches per-player entries only for players with an aggregate row
    (every state reachable from the empty one), and with store and cache
    responding: NotFound is signalled exactly for a player without an
    aggregate entry; a player with one gets the live cache entry under
    their key as it was stored, if there is one, and otherwise the answer
    computed from the table, whose rank is one more than the number of
    players with a strictly greater total. *)
Theorem getPlayerRank_contract_modulo_cache (env : Env) (u : Z) (w : World) :
  world_ok w → no_faults env →
  let r := (Service.getPlayerRank env u w).2 in
  (r = Err Service.not_found ↔ leaderboards (db w) !! u = None) ∧
  (∀ row, leaderboards (db w) !! u = Some row →
     match payload <$> cache w !! CACHE_KEYS.USER_RANK u with
     | Some cached => r = Ok cached
     | None => ∃ name, r = Ok (rank_answer (db w) u row name)
     end).
Proof.
  intros (Hfk & _ & Hcache) Hnf r. split; [split|].
  - by apply getPlayerRank_not_found_sound.
  - intros Hrow. subst r.
    destruct (cache w !! CACHE_KEYS.USER_RANK u) as [e|] eqn:Hc.
    + apply Hcache in Hc as [row Hrow']. congruence.
    + by rewrite (getPlayerRank_miss_absent _ _ _ Hnf Hc Hrow).
  - intros row Hrow. subst r.
    destruct (cache w !! CACHE_KEYS.USER_RANK u) as [e|] eqn:Hc; simpl.
    + destruct Hnf as (_ & Hg & _).
      rewrite (getPlayerRank_hit env u w (payload e)); [done|done|].
      by rewrite Hc.
    + destruct (Hfk u _ Hrow) as [usr Husr]. exists (username usr).
      by rewrite (getPlayerRank_miss _ _ _ _ _ Hnf Hc Hrow Husr).
Qed.

Lemma stale_rank_reachable : reachable_from empty_world stale_rank.
Proof.
  unfold stale_rank, submit, reachable_from. simpl.
  eapply rtc_l; [apply (step_submit (healthy 1) 1 100 None)|].
  eapply rtc_l; [apply (step_rank (healthy 2) 1)|].
  eapply rtc_l; [apply (step_submit (healthy 3) 2 200 None)|].
  apply rtc_refl.
Qed.

Lemma getPlayerRank_contract_modulo_cache_witness :
  let r := (Service.getPlayerRank (healthy 4) 2 stale_rank).2 in
  (r = Err Service.not_found ↔ leaderboards (db stale_rank) !! 2 = None) ∧
  (∀ row, leaderboards (db stale_rank) !! 2 = Some row →
     match payload <$> cache stale_rank !! CACHE_KEYS.USER_RANK 2 with
     | Some cached => r = Ok cached
     | None => ∃ name, r = Ok (rank_answer (db stale_rank) 2 row name)
     end).
Proof.
  apply (getPlayerRank_contract_modulo_cache (healthy 4) 2 stale_rank).
  - exact (reachable_world_ok _ _ empty_world_ok stale_rank_reachable).
  - repeat split; reflexivity.
Defined.

(** ** When a submission goes through *)

(** Every user carries the name the service gives on creation. *)
Definition users_named (d : DB) : Prop :=
  map_Forall (λ u usr, username usr = Tx.user_name u) (users d).




(** The store's computed ranks exist for every row: a full recalculation
    goes through whenever the store is up. *)
Lemma recalculateAllRanks_succeeds env w :
  store_down env = false →
  ∃ w', Service.recalculateAllRanks env w = (w', Ok Service.recalculated).
Proof.
  intros Hs. unfold Service.recalculateAllRanks. rewrite Hs. eauto.
Qed.

(** * Further properties of the service *)

(** ** What a submission writes, and what it leaves alone *)

(** The [users] table after a committed transaction body. *)
Lemma body_users t u s m d d' res :
  Tx.body t u s m d = Ok (d', res) →
  users d' =
    match users d !! u with
    | Some _ => users d
    | None => <[u := mkUser (Tx.user_name u) t]> (users d)
    end.
Proof.
  unfold Tx.body. intros H.
  destruct (Tx.user_upsert t u d) as [[d1 usr]|e] eqn:E1; simpl in H; [|done].
  destruct (Tx.gameSession_create t u s m d1) as [[d2 gs]|e] eqn:E2;
    simpl in H; [|done].
  destruct (Tx.leaderboards_upsert u _ d2) as [[d3 row]|e] eqn:E3;
    simpl in H; [|done].
  inversion H; subst d' res; clear H.
  assert (users d3 = users d2) as ->.
  { revert E3. unfold Tx.leaderboards_upsert.
    destruct (negb _); [done|]. destruct (leaderboards d2 !! u).
    - by intros [= <- _].
    - destruct (negb _); [done|]. by intros [= <- _]. }
  assert (users d2 = users d1) as ->.
  { revert E2. unfold Tx.gameSession_create.
    destruct (negb _); [done|]. destruct (negb _); [done|]. by intros [= <- _]. }
  revert E1. unfold Tx.user_upsert. destruct (users d !! u).
  - by intros [= <- _].
  - destruct (negb _); [done|]. case_bool_decide; [done|]. by intros [= <- _].
Qed.

(** X1. A submission is all or nothing on the store: whatever fails, the
    three tables are afterwards either exactly as before (and the caller
    got an error), or the session is logged, the user exists and the
    aggregate row holds the old sum plus the new score. *)
Theorem submitScore_all_or_nothing
    (env : Env) (u s : Z) (m : option string) (w : World) :
  let w' := (Service.submitScore env u s m w).1 in
  let r := (Service.submitScore env u s m w).2 in
  (db w' = db w ∧ is_ok r = false) ∨
  (game_sessions (db w') =
     game_sessions (db w) ++ [mkGameSession u s (default "solo" m) (now env)] ∧
   is_Some (users (db w') !! u) ∧
   total_of (db w') u = Some (player_sum u (db w) + s) ∧
   int4 (player_sum u (db w) + s) = true).
Proof.
  intros w' r. subst w' r.
  destruct (Service.submitScore env u s m w) as [w' r] eqn:E. simpl.
  destruct (submitScore_db _ _ _ _ _ _ _ E) as [?|[res Hb]]; [by left|].
  right. apply body_Ok in Hb as (row & Hs & Hl & Ht & _ & Hu & _ & Hi & _).
  split; [done|]. split; [done|]. unfold total_of.
  rewrite Hl, lookup_insert_eq. simpl. by rewrite <- Ht.
Qed.

(** X2. A submission of player [u] leaves every other player alone: their
    aggregate row, their user row and their sessions are what they were. *)
Theorem submitScore_leaves_other_players
    (env : Env) (u s : Z) (m : option string) (w : World) (v : Z) :
  v ≠ u →
  let w' := (Service.submitScore env u s m w).1 in
  leaderboards (db w') !! v = leaderboards (db w) !! v ∧
  users (db w') !! v = users (db w) !! v ∧
  sessions_of v (game_sessions (db w')) = sessions_of v (game_sessions (db w)).
Proof.
  intros Hne w'. subst w'.
  destruct (Service.submitScore env u s m w) as [w' r] eqn:E. simpl.
  destruct (submitScore_db _ _ _ _ _ _ _ E) as [[-> _]|[res Hb]]; [done|].
  pose proof (body_users _ _ _ _ _ _ _ Hb) as Hu.
  apply body_Ok in Hb as (row & Hs & Hl & _).
  split; [by rewrite Hl, lookup_insert_ne|]. split.
  - rewrite Hu. destruct (users (db w) !! u); [done|].
    by rewrite lookup_insert_ne.
  - rewrite Hs, sessions_of_snoc. simpl.
    rewrite decide_False by done. by rewrite app_nil_r.
Qed.

Lemma submitScore_leaves_other_players_witness :
  leaderboards (db (Service.submitScore (healthy 5) 3 500 None tied_after).1) !! 1
    = leaderboards (db tied_after) !! 1 ∧
  users (db (Service.submitScore (healthy 5) 3 500 None tied_after).1) !! 1
    = users (db tied_after) !! 1 ∧
  sessions_of 1
    (game_sessions (db (Service.submitScore (healthy 5) 3 500 None tied_after).1))
    = sessions_of 1 (game_sessions (db tied_after)).
Proof.
  apply (submitScore_leaves_other_players (healthy 5) 3 500 None tied_after 1).
  lia.
Defined.

(** X3. No submission ever changes a rank: the [rank] column of every
    player, the submitter included, reads after the call what it read
    before (and NULL for a row the call created). *)
Theorem submitScore_never_changes_ranks
    (env : Env) (u s : Z) (m : option string) (w : World) (v : Z) :
  rank_of (db (Service.submitScore env u s m w).1) v = rank_of (db w) v.
Proof.
  destruct (Service.submitScore env u s m w) as [w' r] eqn:E. simpl.
  destruct (submitScore_db _ _ _ _ _ _ _ E) as [[-> _]|[res Hb]]; [done|].
  apply body_Ok in Hb as (row & _ & Hl & _ & Hr & _).
  unfold rank_of. rewrite Hl. destruct (decide (u = v)) as [->|Hne].
  - by rewrite lookup_insert_eq.
  - by rewrite lookup_insert_ne.
Qed.

(** X4. The user upsert of a successful submission: a player unknown so
    far gets a user row named [user_<id>] with the call's time as join
    date; the row of a known player is not touched. *)
Theorem submitScore_user_upsert
    (env : Env) (u s : Z) (m : option string) (w w' : World) (v : Js.value) :
  Service.submitScore env u s m w = (w', Ok v) →
  users (db w') !! u =
    Some (default (mkUser (Tx.user_name u) (now env)) (users (db w) !! u)).
Proof.
  intros [res Hb]%submitScore_Ok_committed.
  rewrite (body_users _ _ _ _ _ _ _ Hb).
  destruct (users (db w) !! u) as [usr|] eqn:Hu; simpl; [done|].
  by rewrite lookup_insert_eq.
Qed.

Lemma submitScore_user_upsert_witness :
  users (db first_submission) !! 5 =
    Some (default (mkUser (Tx.user_name 5) (now (healthy 8)))
            (users (db empty_world) !! 5)).
Proof.
  apply (submitScore_user_upsert (healthy 8) 5 70 None empty_world
           first_submission Js.Undefined).
  vm_compute. reflexivity.
Defined.

(** X5. The queue after a submission: exactly one job
    [{userId, incremental: true}] of priority 10 is appended when the call
    succeeds with recalculation enabled; in every other case (disabled,
    transaction failed, enqueue rejected) the queue is as before. *)
Theorem submitScore_queue
    (env : Env) (u s : Z) (m : option string) (w : World) :
  let w' := (Service.submitScore env u s m w).1 in
  let r := (Service.submitScore env u s m w).2 in
  queue w' =
    if is_ok r && RANK_RECALCULATION_ENABLED env
    then queue w ++ [mkJob (mkJobData (Some u) false true) 10]
    else queue w.
Proof.
  intros w' r. subst w' r. unfold Service.submitScore, Tx.transaction.
  destruct (store_down env); [done|].
  destruct (Tx.body _ _ _ _ _) as [[d' res]|e] eqn:E; [|done].
  apply body_Ok in E as (row & _ & _ & _ & _ & _ & _ & _ & ->).
  unfold addRankRecalculationJob.
  destruct (RANK_RECALCULATION_ENABLED env); [destruct (queue_down env)|]; done.
Qed.


(** ** Cache keys and invalidation *)

Lemma USER_SCORE_inj u v :
  CACHE_KEYS.USER_SCORE u = CACHE_KEYS.USER_SCORE v → u = v.
Proof.
  unfold CACHE_KEYS.USER_SCORE. intros H.
  apply (inj (String.app "leaderboard:score:")) in H. by apply (inj pretty).
Qed.

Lemma USER_RANK_not_SCORE u v :
  CACHE_KEYS.USER_RANK u ≠ CACHE_KEYS.USER_SCORE v.
Proof. unfold CACHE_KEYS.USER_RANK, CACHE_KEYS.USER_SCORE. cbn. discriminate. Qed.

Lemma USER_SCORE_not_TOP u :
  CACHE_KEYS.USER_SCORE u ≠ CACHE_KEYS.TOP_LEADERBOARD.
Proof.
  unfold CACHE_KEYS.USER_SCORE, CACHE_KEYS.TOP_LEADERBOARD. cbn. discriminate.
Qed.

(** X9. The cache keys never collide: two players have different rank
    keys and different score keys, no rank key is a score key, and neither
    is ever the Top-N key. *)
Theorem cache_keys_distinct (u v : Z) :
  (CACHE_KEYS.USER_RANK u = CACHE_KEYS.USER_RANK v → u = v) ∧
  (CACHE_KEYS.USER_SCORE u = CACHE_KEYS.USER_SCORE v → u = v) ∧
  CACHE_KEYS.USER_RANK u ≠ CACHE_KEYS.USER_SCORE v ∧
  CACHE_KEYS.USER_RANK u ≠ CACHE_KEYS.TOP_LEADERBOARD ∧
  CACHE_KEYS.USER_SCORE u ≠ CACHE_KEYS.TOP_LEADERBOARD.
Proof.
  split; [apply USER_RANK_inj|]. split; [apply USER_SCORE_inj|].
  split; [apply USER_RANK_not_SCORE|].
  split; [apply USER_RANK_not_TOP|apply USER_SCORE_not_TOP].
Qed.

(** The cache a submission leaves. *)
Lemma submitScore_cache env u s m w :
  cache (Service.submitScore env u s m w).1 = cache w ∨
  cache (Service.submitScore env u s m w).1 =
    invalidateUserCache env u (invalidateLeaderboardCache env (cache w)).
Proof.
  unfold Service.submitScore.
  destruct (Tx.transaction _ _ _ _ _) as [[d' res]|e]; [|by left].
  right. by after_commit env.
Qed.

Lemma submitScore_Ok_cache env u s m w w' v :
  Service.submitScore env u s m w = (w', Ok v) →
  cache w' = invalidateUserCache env u (invalidateLeaderboardCache env (cache w)).
Proof.
  unfold Service.submitScore.
  destruct (Tx.transaction _ _ _ _ _) as [[d' res]|e]; [|done].
  after_commit env; by intros [= <- _].
Qed.

Lemma invalidate_other env u (c : Cache) k :
  k ≠ CACHE_KEYS.TOP_LEADERBOARD →
  k ≠ CACHE_KEYS.USER_RANK u →
  k ≠ CACHE_KEYS.USER_SCORE u →
  invalidateUserCache env u (invalidateLeaderboardCache env c) !! k = c !! k.
Proof.
  intros H1 H2 H3.
  unfold invalidateUserCache, invalidateLeaderboardCache, redis_del.
  repeat match goal with
         | |- context [if ?b then _ else _] => destruct b
         end; simpl; by rewrite ?lookup_delete_ne by done.
Qed.

(** X8. A submission of player [u] never evicts what is cached for another
    player: their rank entry and their score entry are still there,
    unchanged, whatever fails during the call. *)
Theorem submitScore_keeps_other_entries
    (env : Env) (u s : Z) (m : option string) (w : World) (v : Z) :
  v ≠ u →
  let w' := (Service.submitScore env u s m w).1 in
  cache w' !! CACHE_KEYS.USER_RANK v = cache w !! CACHE_KEYS.USER_RANK v ∧
  cache w' !! CACHE_KEYS.USER_SCORE v = cache w !! CACHE_KEYS.USER_SCORE v.
Proof.
  intros Hne w'. subst w'.
  destruct (submitScore_cache env u s m w) as [->| ->]; [done|].
  split; apply invalidate_other.
  - apply USER_RANK_not_TOP.
  - intros H. by apply Hne, USER_RANK_inj.
  - apply USER_RANK_not_SCORE.
  - apply USER_SCORE_not_TOP.
  - intros H. symmetry in H. by apply USER_RANK_not_SCORE in H.
  - intros H. by apply Hne, USER_SCORE_inj.
Qed.

(** Player 1 has submitted 100 and read their rank, which is now cached. *)
Definition rank_cached : World :=
  (Service.getPlayerRank (healthy 2) 1
     (Service.submitScore (healthy 1) 1 100 None empty_world).1).1.

Example rank_cached_entry :
  payload <$> cache rank_cached !! CACHE_KEYS.USER_RANK 1 =
    Some (Js.Obj [("userId", Js.Num 1); ("username", Js.Str "user_1");
                  ("totalScore", Js.Num 100); ("rank", Js.Num 1);
                  ("totalPlayers", Js.Num 1)]).
Proof. vm_compute. reflexivity. Qed.

Lemma submitScore_keeps_other_entries_witness :
  cache (Service.submitScore (healthy 3) 2 200 None rank_cached).1
    !! CACHE_KEYS.USER_RANK 1
  = cache rank_cached !! CACHE_KEYS.USER_RANK 1 ∧
  cache (Service.submitScore (healthy 3) 2 200 None rank_cached).1
    !! CACHE_KEYS.USER_SCORE 1
  = cache rank_cached !! CACHE_KEYS.USER_SCORE 1.
Proof.
  apply (submitScore_keeps_other_entries (healthy 3) 2 200 None rank_cached 1).
  lia.
Defined.

(** X7. Invalidate-after-write: after a successful submission during
    which the deletions of the Top-N key and of the player's rank key went
    through, the next undisturbed reads are answered from the table, not
    from the cache: [getPlayerRank] gives the player's new total (the sum
    of their sessions) with its rank, [getTopPlayers] the first rows of the
    ranked query over the new table. *)
Theorem submit_then_reads_are_fresh
    (env : Env) (u s : Z) (m : option string) (w w' : World) (v : Js.value)
    (env_r : Env) (limit : Z) :
  Service.submitScore env u s m w = (w', Ok v) →
  redis_del_down env CACHE_KEYS.TOP_LEADERBOARD = false →
  redis_del_down env (CACHE_KEYS.USER_RANK u) = false →
  no_faults env_r → 0 ≤ limit →
  (∃ row name,
     leaderboards (db w') !! u = Some row ∧
     total_score row = player_sum u (db w') ∧
     (Service.getPlayerRank env_r u w').2
       = Ok (rank_answer (db w') u row name)) ∧
  (Service.getTopPlayers env_r limit w').2 =
    Ok (Js.Arr (Service.player_obj <$>
                  take (Z.to_nat limit)
                    (RANK j_total_score (join_users (db w'))))).
Proof.
  intros Hsub Htop Hrank Hnf Hl.
  pose proof (submitScore_Ok_cache _ _ _ _ _ _ _ Hsub) as Hc.
  assert (cache w' !! CACHE_KEYS.TOP_LEADERBOARD = None ∧
          cache w' !! CACHE_KEYS.USER_RANK u = None) as [Hc1 Hc2].
  { rewrite Hc. unfold invalidateUserCache, invalidateLeaderboardCache,
      redis_del. rewrite Htop, Hrank.
    destruct (redis_del_down env (CACHE_KEYS.USER_SCORE u)); simpl;
      rewrite !lookup_delete_None; auto. }
  split.
  - apply submitScore_Ok_committed in Hsub as [res Hb].
    apply body_Ok in Hb as (row & Hs & Hlb & Ht & _ & [usr Husr] & _).
    pose proof (player_sum_after _ _ _ _ _ _ u Hs) as Hsum.
    rewrite decide_True in Hsum by done.
    assert (leaderboards (db w') !! u = Some row) as Hrow
      by (by rewrite Hlb, lookup_insert_eq).
    exists row, (username usr). split; [done|]. split; [lia|].
    by rewrite (getPlayerRank_miss _ _ _ _ _ Hnf Hc2 Hrow Husr).
  - by rewrite (getTopPlayers_miss _ _ _ Hnf Hl Hc1).
Qed.

Lemma submit_then_reads_are_fresh_witness :
  (∃ row name,
     leaderboards (db overtaken) !! 3 = Some row ∧
     total_score row = player_sum 3 (db overtaken) ∧
     (Service.getPlayerRank (healthy 6) 3 overtaken).2
       = Ok (rank_answer (db overtaken) 3 row name)) ∧
  (Service.getTopPlayers (healthy 6) 2 overtaken).2 =
    Ok (Js.Arr (Service.player_obj <$>
                  take (Z.to_nat 2)
                    (RANK j_total_score (join_users (db overtaken))))).
Proof.
  apply (submit_then_reads_are_fresh (healthy 5) 3 500 None tied_after
           overtaken Js.Undefined (healthy 6) 2).
  - vm_compute. reflexivity.
  - reflexivity.
  - reflexivity.
  - repeat split; reflexivity.
  - lia.
Defined.

(** ** The Top-N list read off the table *)

Lemma elem_of_join_users d r :
  r ∈ join_users d ↔
  ∃ row usr, leaderboards d !! j_user_id r = Some row ∧
             users d !! j_user_id r = Some usr ∧
             j_username r = username usr ∧ j_total_score r = total_score row.
Proof.
  unfold join_users. rewrite list_elem_of_omap. split.
  - intros ([uid row] & Hin%elem_of_map_to_list & Hf).
    destruct (users d !! uid) as [usr|] eqn:Hu; simpl in Hf; [|done].
    inversion Hf; subst r. simpl. exists row, usr. by rewrite Hu.
  - intros (row & usr & Hrow & Hu & Hn & Ht).
    exists (j_user_id r, row). split; [by apply elem_of_map_to_list|].
    rewrite Hu. simpl. destruct r; simpl in *. by subst.
Qed.

Lemma join_users_scores d :
  db_fk d →
  j_total_score <$> join_users d = lb_score <$> map_to_list (leaderboards d).
Proof.
  intros Hfk. unfold join_users.
  assert (Forall (λ kv : Z * Leaderboard, is_Some (users d !! kv.1))
            (map_to_list (leaderboards d))) as Hall.
  { apply Forall_forall. intros [uid row] Hin%elem_of_map_to_list.
    by apply (Hfk uid row). }
  induction Hall as [|[uid row] l [usr Husr] _ IH]; [done|].
  simpl in *. rewrite Husr. simpl. by f_equal.
Qed.

Lemma join_users_above d x :
  db_fk d → count_greater j_total_score x (join_users d) = players_above d x.
Proof.
  intros Hfk. unfold players_above.
  by rewrite (count_greater_fmap j_total_score), (count_greater_fmap lb_score),
    join_users_scores.
Qed.

Lemma elem_of_take_elem {A} (x : A) n l : x ∈ take n l → x ∈ l.
Proof.
  intros (i & Hi & _)%elem_of_take. apply list_elem_of_lookup. eauto.
Qed.

(** X10. What [getTopPlayers(limit)] answers when it reads the table (no
    live entry, store and cache responding, foreign key kept): [limit]
    players, or all of them if there are fewer; in descending order of
    total; each with the total of their aggregate row and, as rank, one
    more than the number of players with a strictly greater total; and no
    player left out has a greater total than a player listed. *)
Theorem getTopPlayers_fresh (env : Env) (limit : Z) (w : World) :
  db_fk (db w) → no_faults env → 0 ≤ limit →
  cache w !! CACHE_KEYS.TOP_LEADERBOARD = None →
  ∃ rows,
    (Service.getTopPlayers env limit w).2
      = Ok (Js.Arr (Service.player_obj <$> rows)) ∧
    length rows = Nat.min (Z.to_nat limit) (size (leaderboards (db w))) ∧
    StronglySorted (desc j_total_score) rows.*1 ∧
    (∀ r rk, (r, rk) ∈ rows →
       total_of (db w) (j_user_id r) = Some (j_total_score r) ∧
       rk = players_above (db w) (j_total_score r) + 1) ∧
    (∀ v tv r rk,
       total_of (db w) v = Some tv → v ∉ (j_user_id <$> rows.*1) →
       (r, rk) ∈ rows → tv ≤ j_total_score r).
Proof.
  intros Hfk Hnf Hl Hc.
  set (all := RANK j_total_score (join_users (db w))).
  exists (take (Z.to_nat limit) all).
  assert (Hsorted : StronglySorted (desc j_total_score) all.*1).
  { unfold all. rewrite RANK_fst. apply StronglySorted_merge_sort; apply _. }
  assert (Hsplit : all.*1 =
            (take (Z.to_nat limit) all).*1 ++ (drop (Z.to_nat limit) all).*1).
  { by rewrite <- fmap_app, take_drop. }
  split; [by rewrite (getTopPlayers_miss _ _ _ Hnf Hl Hc)|].
  split; [unfold all; by rewrite length_take, RANK_length, join_users_length|].
  split; [rewrite Hsplit in Hsorted; by apply StronglySorted_app_1_l in Hsorted|].
  split.
  - intros r rk Hin%elem_of_take_elem.
    pose proof (RANK_count j_total_score _ _ _ Hin) as Hrk.
    rewrite join_users_above in Hrk by done. split; [|done].
    assert (r ∈ join_users (db w)) as Hr.
    { rewrite <- (RANK_perm j_total_score).
      apply list_elem_of_fmap. by exists (r, rk). }
    apply elem_of_join_users in Hr as (row & usr & Hrow & _ & _ & Ht).
    unfold total_of. by rewrite Hrow, Ht.
  - intros v tv r rk Hv Hout Hin. unfold total_of in Hv.
    destruct (leaderboards (db w) !! v) as [row|] eqn:Hrow; [|done].
    inversion Hv; subst tv. destruct (Hfk v row Hrow) as [usr Husr].
    set (jr := mkJoined v (username usr) (total_score row)).
    assert (jr ∈ all.*1) as Hjr.
    { unfold all. rewrite RANK_perm. apply elem_of_join_users.
      exists row, usr. by simpl. }
    rewrite Hsplit in Hjr. apply elem_of_app in Hjr as [Hjr|Hjr].
    { exfalso. apply Hout. apply list_elem_of_fmap. by exists jr. }
    rewrite Hsplit in Hsorted.
    apply (StronglySorted_app_1_elem_of _ _ _ r jr) in Hsorted; [done| |done].
    apply list_elem_of_fmap. by exists (r, rk).
Qed.

Lemma getTopPlayers_fresh_witness :
  ∃ rows,
    (Service.getTopPlayers (healthy 5) 2 tied_before).2
      = Ok (Js.Arr (Service.player_obj <$> rows)) ∧
    length rows = Nat.min (Z.to_nat 2) (size (leaderboards (db tied_before))) ∧
    StronglySorted (desc j_total_score) rows.*1 ∧
    (∀ r rk, (r, rk) ∈ rows →
       total_of (db tied_before) (j_user_id r) = Some (j_total_score r) ∧
       rk = players_above (db tied_before) (j_total_score r) + 1) ∧
    (∀ v tv r rk,
       total_of (db tied_before) v = Some tv → v ∉ (j_user_id <$> rows.*1) →
       (r, rk) ∈ rows → tv ≤ j_total_score r).
Proof.
  apply (getTopPlayers_fresh (healthy 5) 2 tied_before).
  - unfold db_fk. apply (bool_decide_unpack _). vm_compute. exact I.
  - repeat split; reflexivity.
  - lia.
  - vm_compute. reflexivity.
Defined.

(** X11. A Top-N answer is read back as it was given: once
    [getTopPlayers] has returned a list, the next call returns that same
    list, for any limit, and changes nothing (as long as Redis answers the
    read and the entry has not been deleted in between). *)
Theorem getTopPlayers_repeat
    (env1 : Env) (n : Z) (w w1 : World) (v : Js.value) (env2 : Env) (m : Z) :
  Service.getTopPlayers env1 n w = (w1, Ok v) →
  redis_get_down env2 = false →
  Service.getTopPlayers env2 m w1 = (w1, Ok v).
Proof.
  intros H1 Hg.
  assert (payload <$> cache w1 !! CACHE_KEYS.TOP_LEADERBOARD = Some v) as Hc.
  { revert H1. unfold Service.getTopPlayers, redis_get.
    destruct (redis_get_down env1); [done|].
    destruct (cache w !! CACHE_KEYS.TOP_LEADERBOARD) as [e|] eqn:Hc; simpl.
    - intros [= <- <-]. by rewrite Hc.
    - destruct (top_query _ _ _); [|done]. unfold redis_setex.
      destruct (redis_setex_down env1); [done|]. intros [= <- <-]. simpl.
      by rewrite lookup_insert_eq. }
  unfold Service.getTopPlayers, redis_get. by rewrite Hg, Hc.
Qed.

Lemma getTopPlayers_repeat_witness :
  Service.getTopPlayers (healthy 6) 3
    (Service.getTopPlayers (healthy 5) 1 tied_before).1
  = ((Service.getTopPlayers (healthy 5) 1 tied_before).1,
     (Service.getTopPlayers (healthy 5) 1 tied_before).2).
Proof.
  apply (getTopPlayers_repeat (healthy 5) 1 tied_before
           (Service.getTopPlayers (healthy 5) 1 tied_before).1
           (Js.Arr [Js.Obj [("userId", Js.Num 1); ("username", Js.Str "user_1");
                            ("totalScore", Js.Num 200); ("rank", Js.Num 1)]])
           (healthy 6) 3).
  - vm_compute. reflexivity.
  - reflexivity.
Defined.

(** X12. [getTopPlayers] only ever writes its own cache key: the store and
    the queue are untouched, every other key is untouched, and when it
    throws (always the 500 "Failed to retrieve leaderboards") nothing at
    all was written. *)
Theorem getTopPlayers_frame (env : Env) (limit : Z) (w : World) :
  let w' := (Service.getTopPlayers env limit w).1 in
  let r := (Service.getTopPlayers env limit w).2 in
  db w' = db w ∧ queue w' = queue w ∧
  (∀ k, k ≠ CACHE_KEYS.TOP_LEADERBOARD → cache w' !! k = cache w !! k) ∧
  (is_ok r = false → w' = w ∧ r = Err Service.failed_top).
Proof.
  intros w' r. subst w' r. unfold Service.getTopPlayers.
  destruct (redis_get _ _ _) as [[?|]|]; [done| |done].
  destruct (top_query _ _ _); [|done]. unfold redis_setex.
  destruct (redis_setex_down env); [done|]. simpl.
  split; [done|]. split; [done|]. split; [|done].
  intros k Hk. by rewrite lookup_insert_ne.
Qed.

(** ** The per-player answer read back, and the two read paths compared *)

(** X13. A rank answer is read back as it was given: once [getPlayerRank]
    has returned an answer for a player, the next call for that player
    returns the same answer and changes nothing (as long as Redis answers
    the read and the entry has not been deleted in between). *)
Theorem getPlayerRank_repeat
    (env1 : Env) (u : Z) (w w1 : World) (v : Js.value) (env2 : Env) :
  Service.getPlayerRank env1 u w = (w1, Ok v) →
  redis_get_down env2 = false →
  Service.getPlayerRank env2 u w1 = (w1, Ok v).
Proof.
  intros H1 Hg. apply getPlayerRank_hit; [done|].
  revert H1. unfold Service.getPlayerRank, redis_get.
  destruct (redis_get_down env1); [done|].
  destruct (cache w !! CACHE_KEYS.USER_RANK u) as [e|] eqn:Hc; simpl.
  - intros [= <- <-]. by rewrite Hc.
  - destruct (rank_query _ _ _) as [[rankData|]|]; [|done|done].
    unfold redis_setex. destruct (redis_setex_down env1); [done|].
    intros [= <- <-]. simpl. by rewrite lookup_insert_eq.
Qed.

Lemma getPlayerRank_repeat_witness :
  Service.getPlayerRank (healthy 3) 1 rank_cached =
    (rank_cached,
     Ok (Js.Obj [("userId", Js.Num 1); ("username", Js.Str "user_1");
                 ("totalScore", Js.Num 100); ("rank", Js.Num 1);
                 ("totalPlayers", Js.Num 1)])).
Proof.
  apply (getPlayerRank_repeat (healthy 2) 1
           (Service.submitScore (healthy 1) 1 100 None empty_world).1
           rank_cached _ (healthy 3)).
  - vm_compute. reflexivity.
  - reflexivity.
Defined.

(** X14. [getPlayerRank] only ever writes the asked player's rank key: the
    store and the queue are untouched and so is every other cache key. *)
Theorem getPlayerRank_frame (env : Env) (u : Z) (w : World) :
  let w' := (Service.getPlayerRank env u w).1 in
  db w' = db w ∧ queue w' = queue w ∧
  (∀ k, k ≠ CACHE_KEYS.USER_RANK u → cache w' !! k = cache w !! k).
Proof.
  intros w'. subst w'. unfold Service.getPlayerRank.
  destruct (redis_get _ _ _) as [[?|]|]; [done| |done].
  destruct (rank_query _ _ _) as [[rankData|]|]; [|done|done].
  unfold redis_setex. destruct (redis_setex_down env); [done|]. simpl.
  split; [done|]. split; [done|]. intros k Hk. by rewrite lookup_insert_ne.
Qed.

(** X15. The two read paths rank alike: every row of the ranked Top-N
    query carries exactly the rank, the name and the total that the
    single-row query of [getPlayerRank] computes for that player over the
    same table (RANK() and "count of strictly greater totals + 1" are the
    same number, ties included). *)
Theorem read_paths_agree
    (env : Env) (limit : Z) (d : DB) (rows : list (Joined * Z))
    (r : Joined) (rk : Z) :
  db_fk d →
  top_query env limit d = Ok rows →
  (r, rk) ∈ rows →
  rank_query env (j_user_id r) d =
    Ok (Some (mkRankRow (j_user_id r) (j_username r) (j_total_score r) rk
                (Z.of_nat (size (leaderboards d))))).
Proof.
  intros Hfk Htop Hin. revert Htop. unfold top_query, rank_query.
  destruct (store_down env); [done|]. case_decide; [done|].
  intros [= <-]. apply elem_of_take_elem in Hin.
  pose proof (RANK_count j_total_score _ _ _ Hin) as Hrk.
  rewrite join_users_above in Hrk by done.
  assert (r ∈ join_users d) as Hr.
  { rewrite <- (RANK_perm j_total_score).
    apply list_elem_of_fmap. by exists (r, rk). }
  apply elem_of_join_users in Hr as (row & usr & Hrow & Hu & Hn & Ht).
  rewrite Hrow, Hu. simpl. unfold players_above in Hrk.
  by rewrite <- Hn, <- Ht, <- Hrk.
Qed.

Lemma read_paths_agree_witness :
  rank_query (healthy 5) 3 (db tied_before) =
    Ok (Some (mkRankRow 3 "user_3" 100 3
                (Z.of_nat (size (leaderboards (db tied_before)))))).
Proof.
  apply (read_paths_agree (healthy 5) 3 (db tied_before)
           (RANK j_total_score (join_users (db tied_before)))
           (mkJoined 3 "user_3" 100) 3).
  - unfold db_fk. apply (bool_decide_unpack _). vm_compute. exact I.
  - vm_compute. reflexivity.
  - replace (RANK j_total_score (join_users (db tied_before)))
      with [(mkJoined 1 "user_1" 200, 1); (mkJoined 2 "user_2" 200, 1);
            (mkJoined 3 "user_3" 100, 3)] by (vm_compute; reflexivity).
    apply elem_of_cons. right. apply elem_of_cons. right.
    apply elem_of_cons. by left.
Defined.

(** ** More on the full recalculation *)

Lemma update_ranks_idempotent (rows : gmap Z Leaderboard) :
  update_ranks (update_ranks rows) = update_ranks rows.
Proof.
  apply map_eq. intros u. rewrite !update_ranks_lookup.
  destruct (rows !! u) as [row|]; simpl; [|done].
  by rewrite !(count_greater_fmap lb_score), update_ranks_scores.
Qed.

(** X16. The full recalculation is idempotent: run a second time on what
    the first run left, it writes the very same table. *)
Theorem full_recalculation_idempotent
    (env1 env2 : Env) (w w1 w2 : World) (v1 v2 : Js.value) :
  Service.recalculateAllRanks env1 w = (w1, Ok v1) →
  Service.recalculateAllRanks env2 w1 = (w2, Ok v2) →
  db w2 = db w1.
Proof.
  intros (Hu1 & Hs1 & Hl1)%recalculateAllRanks_db
         (Hu2 & Hs2 & Hl2)%recalculateAllRanks_db.
  rewrite Hl1, update_ranks_idempotent, <- Hl1 in Hl2.
  destruct (db w2), (db w1); simpl in *. congruence.
Qed.

Lemma full_recalculation_idempotent_witness :
  db (Service.recalculateAllRanks (healthy 5) tied_after).1 = db tied_after.
Proof.
  apply (full_recalculation_idempotent (healthy 4) (healthy 5) tied_before
           tied_after (Service.recalculateAllRanks (healthy 5) tied_after).1
           Service.recalculated Service.recalculated).
  - vm_compute. reflexivity.
  - vm_compute. reflexivity.
Defined.

(** X17. The full recalculation writes ranks and nothing else: users,
    sessions, every total and the queue are untouched, the only cache key
    that can go is the Top-N key, and when it throws (store unreachable)
    nothing at all has changed. *)
Theorem full_recalculation_frame (env : Env) (w : World) :
  let w' := (Service.recalculateAllRanks env w).1 in
  let r := (Service.recalculateAllRanks env w).2 in
  users (db w') = users (db w) ∧
  game_sessions (db w') = game_sessions (db w) ∧
  (∀ u, total_of (db w') u = total_of (db w) u) ∧
  queue w' = queue w ∧
  (∀ k, k ≠ CACHE_KEYS.TOP_LEADERBOARD → cache w' !! k = cache w !! k) ∧
  (is_ok r = false → w' = w).
Proof.
  intros w' r. subst w' r. unfold Service.recalculateAllRanks.
  destruct (store_down env); [done|]. simpl.
  split; [done|]. split; [done|]. split.
  { intros u. unfold total_of. simpl. rewrite update_ranks_lookup.
    by destruct (leaderboards (db w) !! u). }
  split; [done|]. split; [|done].
  intros k Hk. unfold invalidateLeaderboardCache, redis_del.
  destruct (redis_del_down _ _); simpl; [done|]. by rewrite lookup_delete_ne.
Qed.

(** X18. After a full recalculation every aggregate row has a rank, every
    rank lies between 1 and the number of players, and if there is any
    player at all, some player holds rank 1. *)
Theorem full_recalculation_rank_bounds
    (env : Env) (w w' : World) (v : Js.value) :
  Service.recalculateAllRanks env w = (w', Ok v) →
  (∀ u, is_Some (leaderboards (db w') !! u) → is_Some (rank_of (db w') u)) ∧
  (∀ u k, rank_of (db w') u = Some k →
          1 ≤ k ≤ Z.of_nat (size (leaderboards (db w')))) ∧
  (leaderboards (db w') ≠ ∅ → ∃ u, rank_of (db w') u = Some 1).
Proof.
  intros H. pose proof H as (_ & _ & Hl)%recalculateAllRanks_db.
  assert (Hsize : size (leaderboards (db w')) = size (leaderboards (db w))).
  { by rewrite Hl, update_ranks_fmap, map_size_fmap. }
  split; [|split].
  - intros u [row Hrow]. destruct (recalculateAllRanks_rank _ _ _ _ u H) as [Ht ->].
    rewrite <- Ht. unfold total_of. by rewrite Hrow.
  - intros u k Hk. destruct (recalculateAllRanks_rank _ _ _ _ u H) as [_ Hr].
    rewrite Hr in Hk. unfold total_of in Hk.
    destruct (leaderboards (db w) !! u) as [row|] eqn:Hrow; [|done].
    simpl in Hk. inversion Hk; subst k. clear Hk.
    apply elem_of_map_to_list in Hrow.
    pose proof (length_filter_lt (λ kv, total_score row < lb_score kv)
                  (map_to_list (leaderboards (db w))) (u, row) Hrow) as Hlt.
    unfold players_above, count_greater. rewrite Hsize, <- length_map_to_list.
    unfold lb_score at 1 in Hlt. simpl in Hlt.
    assert (¬ total_score row < total_score row) as Hirr by lia.
    specialize (Hlt Hirr). lia.
  - intros Hne. rewrite Hl in Hne.
    assert (map_to_list (leaderboards (db w)) ≠ []) as Hne'.
    { intros He%map_to_list_empty_iff. apply Hne.
      rewrite He. apply map_eq. intros u.
      by rewrite update_ranks_lookup, lookup_empty. }
    destruct (order_by_desc lb_score (map_to_list (leaderboards (db w))))
      as [|[u row] rest] eqn:Hsort.
    { exfalso. apply Hne'. apply Permutation_nil_r.
      rewrite <- Hsort. symmetry. apply merge_sort_Permutation. }
    assert (((u, row), 1) ∈ RANK lb_score (map_to_list (leaderboards (db w))))
      as Hin.
    { unfold RANK. rewrite Hsort. simpl. apply elem_of_cons. by left. }
    pose proof (RANK_count lb_score _ _ _ Hin) as Hone.
    assert ((u, row) ∈ map_to_list (leaderboards (db w))) as Hrow.
    { rewrite <- (RANK_perm lb_score).
      apply list_elem_of_fmap. by exists ((u, row), 1). }
    apply elem_of_map_to_list in Hrow. exists u.
    destruct (recalculateAllRanks_rank _ _ _ _ u H) as [_ ->].
    unfold total_of. rewrite Hrow. simpl. unfold players_above.
    unfold lb_score at 2 in Hone. simpl in Hone. by rewrite <- Hone.
Qed.

Lemma full_recalculation_rank_bounds_witness :
  (∀ u, is_Some (leaderboards (db tied_after) !! u) →
        is_Some (rank_of (db tied_after) u)) ∧
  (∀ u k, rank_of (db tied_after) u = Some k →
          1 ≤ k ≤ Z.of_nat (size (leaderboards (db tied_after)))) ∧
  (leaderboards (db tied_after) ≠ ∅ → ∃ u, rank_of (db tied_after) u = Some 1).
Proof.
  apply (full_recalculation_rank_bounds (healthy 4) tied_before tied_after
           Service.recalculated).
  vm_compute. reflexivity.
Defined.

(** * The cache-warming worker and the remaining HTTP handlers *)

(** jobs/workers.js, [cacheWarmingWorker]: [getTopPlayers(10)], then
    [getTopPlayers(50)]; a failure of either is thrown on.  Each call has
    its own environment. *)
Definition cacheWarmingWorker (env1 env2 : Env) (w : World)
    : World * Result Js.value :=
  match Service.getTopPlayers env1 10 w with
  | (w1, Err e) => (w1, Err e)
  | (w1, Ok _) =>
      match Service.getTopPlayers env2 50 w1 with
      | (w2, Err e) => (w2, Err e)
      | (w2, Ok _) => (w2, Ok (Worker.processed env2))
      end
  end.

Module Handlers.

(** [v.length]. *)
Definition length_of (v : Js.value) : Result Js.value :=
  match v with
  | Js.Arr items => Ok (Js.Num (Z.of_nat (length items)))
  | Js.Str s => Ok (Js.Num (Z.of_nat (String.length s)))
  | Js.Undefined | Js.Null => Js.get v "length"
  | _ => Ok Js.Undefined
  end.

(** [parseInt(req.query.limit) || 10]; the argument is what [parseInt]
    made of the query string, [None] standing for NaN. *)
Definition limit_or_default (parsed : option Z) : Z :=
  match parsed with
  | Some n => if decide (n = 0) then 10 else n
  | None => 10
  end.

(** GET /top. *)
Definition getTopPlayers (env : Env) (parsed : option Z) (w : World)
    : World * Response :=
  let limit := limit_or_default parsed in
  let '(w', r) := Service.getTopPlayers env limit w in
  (w',
   Controller.asyncHandler env
     (topPlayers ← r;
      count ← length_of topPlayers;
      Ok (mkResponse 200
            (Js.Obj [("success", Js.Bool true); ("data", topPlayers);
                     ("count", count); ("timestamp", Js.Date (now env))])))).

(** GET /rank/:userId, after [userIdParamSchema] has turned the digits
    into a number. *)
Definition getPlayerRank (env : Env) (userId : Z) (w : World)
    : World * Response :=
  let '(w', r) := Service.getPlayerRank env userId w in
  (w',
   Controller.asyncHandler env
     (rankData ← r;
      Ok (mkResponse 200
            (Js.Obj [("success", Js.Bool true); ("data", rankData);
                     ("timestamp", Js.Date (now env))])))).

(** POST /recalculate. *)
Definition triggerRankRecalculation (env : Env) (w : World)
    : World * Response :=
  match addRankRecalculationJob env (mkJobData None true false) (queue w) with
  | Err e => (w, Controller.errorHandler env e)
  | Ok queue' =>
      (mkWorld (db w) (cache w) queue',
       mkResponse 202
         (Js.Obj [("success", Js.Bool true);
                  ("message", Js.Str "Rank recalculation job queued");
                  ("timestamp", Js.Date (now env))]))
  end.

End Handlers.

(** X19. The cache-warming job never gets past its first call: whatever
    its two calls return, the state it leaves is the state
    [getTopPlayers(10)] alone leaves; its [getTopPlayers(50)] is answered
    from the entry just written (or fails on the read) and writes nothing. *)
Theorem cacheWarmingWorker_is_first_call (env1 env2 : Env) (w : World) :
  (cacheWarmingWorker env1 env2 w).1 = (Service.getTopPlayers env1 10 w).1.
Proof.
  unfold cacheWarmingWorker.
  destruct (Service.getTopPlayers env1 10 w) as [w1 [v|e]] eqn:E1; [|done].
  simpl. destruct (redis_get_down env2) eqn:Hg.
  - unfold Service.getTopPlayers, redis_get. by rewrite Hg.
  - assert (payload <$> cache w1 !! CACHE_KEYS.TOP_LEADERBOARD = Some v) as Hc.
    { revert E1. unfold Service.getTopPlayers, redis_get.
      destruct (redis_get_down env1); [done|].
      destruct (cache w !! CACHE_KEYS.TOP_LEADERBOARD) as [e|] eqn:Hc; simpl.
      - intros [= <- <-]. by rewrite Hc.
      - destruct (top_query _ _ _); [|done]. unfold redis_setex.
        destruct (redis_setex_down env1); [done|]. intros [= <- <-]. simpl.
        by rewrite lookup_insert_eq. }
    unfold Service.getTopPlayers, redis_get. by rewrite Hg, Hc.
Qed.

(** X20. GET /top on a cold cache (no live entry, store and cache
    responding, foreign key kept): a limit that is missing, not a number
    or zero counts as 10; a non-negative limit is answered 200 with
    [count] the smaller of the limit and the number of players; a negative
    one is answered 500. *)
Theorem get_top_cold (env : Env) (parsed : option Z) (w : World) :
  db_fk (db w) → no_faults env →
  cache w !! CACHE_KEYS.TOP_LEADERBOARD = None →
  let limit := Handlers.limit_or_default parsed in
  let res := (Handlers.getTopPlayers env parsed w).2 in
  (parsed = None ∨ parsed = Some 0 → limit = 10) ∧
  (0 ≤ limit →
   status res = 200 ∧
   Js.get (body res) "count" =
     Ok (Js.Num (Z.of_nat (Nat.min (Z.to_nat limit)
                             (size (leaderboards (db w))))))) ∧
  (limit < 0 →
   status res = 500 ∧
   Js.get (body res) "error" = Ok (Js.Str "Failed to retrieve leaderboards")).
Proof.
  intros Hfk Hnf Hc limit res. split; [by intros [-> | ->]|]. split.
  - intros Hl. subst res. unfold Handlers.getTopPlayers. fold limit.
    rewrite (getTopPlayers_miss _ _ _ Hnf Hl Hc). simpl.
    split; [done|]. do 3 f_equal.
    by rewrite length_fmap, length_take, RANK_length, join_users_length.
  - intros Hl. subst res. unfold Handlers.getTopPlayers. fold limit.
    destruct Hnf as (Hs & Hg & _).
    unfold Service.getTopPlayers, redis_get, top_query.
    rewrite Hg, Hc, Hs. simpl. by rewrite decide_True by done.
Qed.

Lemma get_top_cold_witness :
  let limit := Handlers.limit_or_default None in
  let res := (Handlers.getTopPlayers (healthy 5) None tied_before).2 in
  (@None Z = None ∨ None = Some 0 → limit = 10) ∧
  (0 ≤ limit →
   status res = 200 ∧
   Js.get (body res) "count" =
     Ok (Js.Num (Z.of_nat (Nat.min (Z.to_nat limit)
                             (size (leaderboards (db tied_before))))))) ∧
  (limit < 0 →
   status res = 500 ∧
   Js.get (body res) "error" = Ok (Js.Str "Failed to retrieve leaderboards")).
Proof.
  apply (get_top_cold (healthy 5) None tied_before).
  - unfold db_fk. apply (bool_decide_unpack _). vm_compute. exact I.
  - repeat split; reflexivity.
  - vm_compute. reflexivity.
Defined.



(** X22. POST /recalculate and the worker together: with the queue
    reachable the request is answered 202 and appends one
    full-recalculation job of priority 1; once the worker has processed
    that job (store up), every player's rank is one more than the number
    of players with a strictly greater total.  With the queue unreachable
    the answer is a 500 and nothing is enqueued. *)
Theorem trigger_then_worker_ranks_everyone
    (env env_w : Env) (w : World) :
  store_down env_w = false →
  let w1 := (Handlers.triggerRankRecalculation env w).1 in
  let res := (Handlers.triggerRankRecalculation env w).2 in
  let job := mkJobData None true false in
  (queue_down env = true → w1 = w ∧ status res = 500) ∧
  (queue_down env = false →
   status res = 202 ∧ queue w1 = queue w ++ [mkJob job 1] ∧
   let w2 := (Worker.rankRecalculationWorker env_w job w1).1 in
   ∀ u t, total_of (db w2) u = Some t →
          rank_of (db w2) u = Some (players_above (db w2) t + 1)).
Proof.
  intros Hs w1 res job. subst w1 res.
  unfold Handlers.triggerRankRecalculation, addRankRecalculationJob.
  split; intros Hq; rewrite Hq; [done|]. simpl.
  split; [done|]. split; [done|]. intros u t Ht.
  unfold Worker.rankRecalculationWorker in *. simpl in *.
  destruct (Service.recalculateAllRanks env_w _) as [w2 [v|e]] eqn:E.
  - simpl in *. destruct (recalculateAllRanks_rank _ _ _ _ u E) as [Ht' Hr].
    rewrite Ht' in Ht. rewrite Hr, Ht. simpl.
    by destruct (recalculateAllRanks_counts _ _ _ _ t E) as [-> _].
  - revert E. unfold Service.recalculateAllRanks. by rewrite Hs.
Qed.

Lemma trigger_then_worker_ranks_everyone_witness :
  let w1 := (Handlers.triggerRankRecalculation (healthy 6) overtaken).1 in
  let res := (Handlers.triggerRankRecalculation (healthy 6) overtaken).2 in
  let job := mkJobData None true false in
  (queue_down (healthy 6) = true → w1 = overtaken ∧ status res = 500) ∧
  (queue_down (healthy 6) = false →
   status res = 202 ∧ queue w1 = queue overtaken ++ [mkJob job 1] ∧
   let w2 := (Worker.rankRecalculationWorker (healthy 7) job w1).1 in
   ∀ u t, total_of (db w2) u = Some t →
          rank_of (db w2) u = Some (players_above (db w2) t + 1)).
Proof.
  apply (trigger_then_worker_ranks_everyone (healthy 6) (healthy 7) overtaken).
  reflexivity.
Defined.

Example overtaken_after_trigger :
  let w1 := (Handlers.triggerRankRecalculation (healthy 6) overtaken).1 in
  let w2 := (Worker.rankRecalculationWorker (healthy 7)
               (mkJobData None true false) w1).1 in
  rank_of (db overtaken) <$> [1; 2; 3] = [Some 1; Some 1; Some 3] ∧
  rank_of (db w2) <$> [1; 2; 3] = [Some 2; Some 2; Some 1].
Proof. vm_compute. split; reflexivity. Qed.

(** * Store invariants over all operations *)

(** Every logged session belongs to a player with an aggregate row. *)
Definition sessions_have_rows (d : DB) : Prop :=
  Forall (λ s, is_Some (leaderboards d !! gs_user_id s)) (game_sessions d).

(** What one move can do to the store: nothing, a committed submission, or
    a rewrite of the rank column. *)
Lemma step_db : ∀ w w',
  step w w' →
  db w' = db w ∨
  (∃ t u s m res, Tx.body t u s m (db w) = Ok (db w', res)) ∨
  (users (db w') = users (db w) ∧
   game_sessions (db w') = game_sessions (db w) ∧
   leaderboards (db w') = update_ranks (leaderboards (db w))).
Proof.
  intros ? ? [env u s m w|env limit w|env u w|env job w|k w].
  - destruct (Service.submitScore env u s m w) as [w2 r] eqn:E. simpl.
    destruct (submitScore_db _ _ _ _ _ _ _ E) as [[-> _]|[res Hb]];
      [by left|]. right. left. by eexists _, _, _, _, _.
  - left. apply getTopPlayers_db.
  - left. apply getPlayerRank_db.
  - unfold Worker.rankRecalculationWorker.
    destruct (fullRecalculation job);
      [|left; by destruct (incremental job && Worker.truthy_id (job_userId job))].
    destruct (Service.recalculateAllRanks env w) as [w2 [v|e]] eqn:E; simpl.
    + right. right. by apply recalculateAllRanks_db in E.
    + left. revert E. unfold Service.recalculateAllRanks.
      destruct (store_down env); [|done]. by intros [= <- _].
  - by left.
Qed.

Lemma step_sessions_have_rows w w' :
  step w w' → sessions_have_rows (db w) → sessions_have_rows (db w').
Proof.
  intros Hstep Hinv. unfold sessions_have_rows in *.
  destruct (step_db _ _ Hstep) as [->|[(t & u & s & m & res & Hb)|(_ & -> & ->)]];
    [done| |].
  - apply body_Ok in Hb as (row & -> & -> & _).
    apply Forall_app. split.
    + eapply Forall_impl; [exact Hinv|]. intros x Hx. simpl in Hx.
      by apply lookup_insert_is_Some'; right.
    + constructor; [|done]. simpl. by rewrite lookup_insert_eq.
  - eapply Forall_impl; [exact Hinv|]. intros x Hx. simpl in Hx.
    by apply update_ranks_is_Some.
Qed.

Lemma step_users_named w w' :
  step w w' → users_named (db w) → users_named (db w').
Proof.
  intros Hstep Hinv. unfold users_named in *.
  destruct (step_db _ _ Hstep) as [->|[(t & u & s & m & res & Hb)|(-> & _)]];
    [done| |done].
  rewrite (body_users _ _ _ _ _ _ _ Hb).
  destruct (users (db w) !! u); [done|]. by apply map_Forall_insert_2.
Qed.

Lemma reachable_invariant (P : World → Prop) :
  (∀ w w', step w w' → P w → P w') →
  ∀ w0 w, P w0 → reachable_from w0 w → P w.
Proof. intros Hstep w0 w H0 Hr. induction Hr; eauto. Qed.

(** X24. Whatever the system does from the empty state (submissions,
    reads, worker runs, cache expiry, under any faults), the store keeps
    its shape: every aggregate row holds the sum of its player's sessions
    and belongs to an existing user, every logged session belongs to a
    player with an aggregate row, and every user is named [user_<id>]. *)
Theorem reachable_store_invariants (w : World) :
  reachable_from empty_world w →
  db_consistent (db w) ∧ db_fk (db w) ∧
  sessions_have_rows (db w) ∧ users_named (db w).
Proof.
  intros Hr.
  destruct (reachable_world_ok _ _ empty_world_ok Hr) as (Hfk & Hc & _).
  split; [done|]. split; [done|]. split.
  - apply (reachable_invariant (λ w, sessions_have_rows (db w))
             step_sessions_have_rows empty_world w); [constructor|done].
  - apply (reachable_invariant (λ w, users_named (db w))
             step_users_named empty_world w); [apply map_Forall_empty|done].
Qed.

Lemma reachable_store_invariants_witness :
  db_consistent (db stale_rank) ∧ db_fk (db stale_rank) ∧
  sessions_have_rows (db stale_rank) ∧ users_named (db stale_rank).
Proof.
  apply (reachable_store_invariants stale_rank). exact stale_rank_reachable.
Defined.

(** * The load simulator's request statistics *)

Module LoadSimulation.

(** The [stats] object; [minLatency] starts at [Infinity], here [None]
    ([startTime] is only read when printing). *)
Record Stats : Type := mkStats {
  totalRequests : Z;
  successfulRequests : Z;
  failedRequests : Z;
  totalLatency : Z;
  minLatency : option Z;
  maxLatency : Z
}.

Definition stats : Stats := mkStats 0 0 0 0 None 0.

(** [Math.min(stats.minLatency, latency)]. *)
Definition min_with (m : option Z) (latency : Z) : option Z :=
  match m with
  | None => Some latency
  | Some x => Some (Z.min x latency)
  end.

Definition updateStats (success : bool) (latency : Z) (st : Stats) : Stats :=
  if success then
    mkStats (totalRequests st + 1) (successfulRequests st + 1)
      (failedRequests st) (totalLatency st + latency)
      (min_with (minLatency st) latency) (Z.max (maxLatency st) latency)
  else
    mkStats (totalRequests st + 1) (successfulRequests st)
      (failedRequests st + 1) (totalLatency st) (minLatency st)
      (maxLatency st).

(** The requests of a run, in order: outcome and latency. *)
Definition record (calls : list (bool * Z)) : Stats :=
  foldl (λ st c, updateStats c.1 c.2 st) stats calls.

(** Latencies of the successful requests. *)
Definition latencies (calls : list (bool * Z)) : list Z :=
  omap (λ c : bool * Z, if c.1 then Some c.2 else None) calls.

End LoadSimulation.

Section load_simulation.
Import LoadSimulation.

Definition stats_inv (calls : list (bool * Z)) (st : Stats) : Prop :=
  totalRequests st = Z.of_nat (length calls) ∧
  successfulRequests st = Z.of_nat (length (latencies calls)) ∧
  failedRequests st =
    Z.of_nat (length calls) - Z.of_nat (length (latencies calls)) ∧
  totalLatency st = foldr Z.add 0 (latencies calls) ∧
  0 ≤ maxLatency st ∧
  Forall (λ l, l ≤ maxLatency st) (latencies calls) ∧
  match minLatency st with
  | None => latencies calls = []
  | Some m => m ∈ latencies calls ∧ Forall (λ l, m ≤ l) (latencies calls)
  end.

Lemma latencies_snoc calls c :
  latencies (calls ++ [c]) =
    latencies calls ++ (if c.1 then [c.2] else []).
Proof.
  unfold latencies. rewrite omap_app. f_equal. by destruct c as [[] l].
Qed.

Lemma stats_inv_step calls st ok l :
  stats_inv calls st → stats_inv (calls ++ [(ok, l)]) (updateStats ok l st).
Proof.
  intros (H1 & H2 & H3 & H4 & H5 & H6 & H7).
  unfold stats_inv. rewrite latencies_snoc, !length_app. simpl.
  destruct ok; simpl.
  - rewrite foldr_app. simpl.
    split; [lia|]. split; [lia|]. split; [lia|]. split.
    { rewrite H4. clear. induction (latencies calls) as [|x xs IH]; simpl; lia. }
    split; [lia|]. split.
    { apply Forall_app. split.
      - eapply Forall_impl; [exact H6|]. simpl. lia.
      - constructor; [lia|done]. }
    destruct (minLatency st) as [m|]; simpl.
    + destruct H7 as [Hin Hall]. split.
      * destruct (Z.min_spec m l) as [[_ ->]|[_ ->]].
        -- apply elem_of_app. by left.
        -- apply elem_of_app. right. by apply list_elem_of_singleton.
      * apply Forall_app. split.
        -- eapply Forall_impl; [exact Hall|]. simpl. lia.
        -- constructor; [lia|done].
    + rewrite H7. simpl. split; [by apply list_elem_of_singleton|].
      constructor; [lia|done].
  - rewrite app_nil_r. repeat split; try done; try lia.
Qed.

Lemma stats_inv_record calls : stats_inv calls (record calls).
Proof.
  induction calls as [|[ok l] calls IH] using rev_ind.
  - unfold record, stats_inv. simpl. repeat split; done.
  - unfold record. rewrite foldl_app. simpl. by apply stats_inv_step.
Qed.

Lemma sum_bounds (lo hi : Z) (ls : list Z) :
  Forall (λ l, lo ≤ l) ls → Forall (λ l, l ≤ hi) ls →
  Z.of_nat (length ls) * lo ≤ foldr Z.add 0 ls ≤ Z.of_nat (length ls) * hi.
Proof.
  induction ls as [|x xs IH]; simpl; [lia|].
  intros [Hx Hxs]%Forall_cons [Hx' Hxs']%Forall_cons.
  specialize (IH Hxs Hxs'). lia.
Qed.

(** X23. The statistics the load simulator keeps, after any run of
    requests: the request count is the number of requests and splits into
    successes and failures; the total latency is the sum over the
    successful requests; the minimum is still [Infinity] exactly when
    nothing succeeded; and otherwise every successful latency lies between
    the minimum and the maximum, and so does their average (n * min <=
    total <= n * max). *)
Theorem updateStats_accounts (calls : list (bool * Z)) :
  let st := record calls in
  totalRequests st = Z.of_nat (length calls) ∧
  successfulRequests st + failedRequests st = totalRequests st ∧
  successfulRequests st = Z.of_nat (length (latencies calls)) ∧
  totalLatency st = foldr Z.add 0 (latencies calls) ∧
  (minLatency st = None ↔ successfulRequests st = 0) ∧
  (∀ m, minLatency st = Some m →
        (∀ l, (true, l) ∈ calls → m ≤ l ≤ maxLatency st) ∧
        successfulRequests st * m ≤ totalLatency st
          ≤ successfulRequests st * maxLatency st).
Proof.
  intros st. destruct (stats_inv_record calls)
    as (H1 & H2 & H3 & H4 & H5 & H6 & H7). fold st in H1, H2, H3, H4, H5, H6, H7.
  split; [done|]. split; [lia|]. split; [done|]. split; [done|]. split.
  - destruct (minLatency st) as [m|].
    + destruct H7 as [Hin _]. split; [done|]. intros H0.
      rewrite H2 in H0. destruct (latencies calls); [|done].
      by apply elem_of_nil in Hin.
    + rewrite H7 in H2. simpl in H2. by split.
  - intros m Hm. rewrite Hm in H7. destruct H7 as [_ Hall]. split.
    + intros l Hl.
      assert (l ∈ latencies calls) as Hin.
      { unfold latencies. apply list_elem_of_omap. by exists (true, l). }
      rewrite Forall_forall in Hall, H6. split; [by apply Hall|by apply H6].
    + rewrite H2, H4. by apply sum_bounds.
Qed.

End load_simulation.

(** X25. The answer of the single-row rank query: it is about the asked
    player, carries the total of their aggregate row, and its rank lies
    between 1 and [total_players], the number of aggregate rows. *)
Theorem rank_query_bounds (env : Env) (u : Z) (d : DB) (r : RankRow) :
  rank_query env u d = Ok (Some r) →
  rr_user_id r = u ∧
  total_of d u = Some (rr_total_score r) ∧
  rr_total_players r = Z.of_nat (size (leaderboards d)) ∧
  1 ≤ rr_rank r ≤ rr_total_players r.
Proof.
  unfold rank_query. destruct (store_down env); [done|].
  destruct (leaderboards d !! u) as [row|] eqn:Hrow; simpl; [|done].
  destruct (users d !! u) as [usr|]; simpl; [|done].
  intros [= <-]. simpl. split; [done|]. unfold total_of. rewrite Hrow.
  split; [done|]. split; [done|].
  apply elem_of_map_to_list in Hrow.
  pose proof (length_filter_lt (λ kv, total_score row < lb_score kv)
                (map_to_list (leaderboards d)) (u, row) Hrow) as Hlt.
  unfold lb_score at 1 in Hlt. simpl in Hlt.
  assert (¬ total_score row < total_score row) as Hirr by lia.
  specialize (Hlt Hirr). unfold count_greater.
  rewrite <- length_map_to_list. lia.
Qed.

Lemma rank_query_bounds_witness :
  rr_user_id (mkRankRow 3 "user_3" 100 3 3) = 3 ∧
  total_of (db tied_before) 3 = Some (rr_total_score (mkRankRow 3 "user_3" 100 3 3)) ∧
  rr_total_players (mkRankRow 3 "user_3" 100 3 3)
    = Z.of_nat (size (leaderboards (db tied_before))) ∧
  1 ≤ rr_rank (mkRankRow 3 "user_3" 100 3 3)
    ≤ rr_total_players (mkRankRow 3 "user_3" 100 3 3).
Proof.
  apply (rank_query_bounds (healthy 5) 3 (db tied_before)).
  vm_compute. reflexivity.
Defined.

(** * scripts/seed.js: seeding the store *)

Module Seed.

(** [INSERT INTO users (id, username) SELECT s, 'user_' || s FROM
    generate_series(1, N)]. *)
Definition seed_users (t N : Z) : gmap Z User :=
  list_to_map ((λ s, (s, mkUser (Tx.user_name s) t)) <$> seqZ 1 N).

(** One [INSERT INTO game_sessions ...] with the rows it generated: all of
    them or, if one violates a column type or the foreign key, none. *)
Definition insert_sessions (rows : list GameSession) (d : DB) : Result DB :=
  if forallb (λ s, int4 (gs_user_id s) && int4 (gs_score s)
                   && bool_decide (is_Some (users d !! gs_user_id s))) rows
  then Ok (mkDB (users d) (game_sessions d ++ rows) (leaderboards d))
  else Err (PrismaError "P2010").

(** The groups of [GROUP BY user_id] under [WHERE user_id BETWEEN lo AND
    hi]. *)
Definition groups (lo hi : Z) (d : DB) : list Z :=
  remove_dups (filter (λ u, lo ≤ u ≤ hi) (gs_user_id <$> game_sessions d)).

(** [INSERT INTO leaderboards (user_id, total_score) SELECT user_id,
    SUM(score) ... GROUP BY user_id ON CONFLICT (user_id) DO UPDATE SET
    total_score = EXCLUDED.total_score] for the ids from [lo] to
    [lo + batchSize - 1]. *)
Definition aggregate_batch (batchSize lo : Z) (d : DB) : Result DB :=
  let us := groups lo (lo + batchSize - 1) d in
  if forallb (λ u, int4 (player_sum u d)
                   && bool_decide (is_Some (users d !! u))) us
  then
    Ok (mkDB (users d) (game_sessions d)
          (foldr (λ u lbs,
                    <[u := mkLeaderboard (player_sum u d)
                             (leaderboards d !! u ≫= rank)]> lbs)
             (leaderboards d) us))
  else Err (PrismaError "P2010").

(** The values [i] takes in [for (let i = 1; i <= totalUsers; i +=
    batchSize)], for a positive [batchSize]. *)
Definition batch_starts (totalUsers batchSize : Z) : list Z :=
  (λ k, 1 + k * batchSize) <$> seqZ 0 ((totalUsers - 1) `div` batchSize + 1).

(** Statements run one after another; the first failure stops the script
    and what was written so far stays. *)
Fixpoint run_all {A} (f : A → DB → Result DB) (xs : list A) (d : DB)
    : DB * Result unit :=
  match xs with
  | [] => (d, Ok ())
  | x :: rest =>
      match f x d with
      | Ok d' => run_all f rest d'
      | Err e => (d, Err e)
      end
  end.

(** [seedDatabase] for [totalUsers] users and the given [batchSize]; the
    argument [generated] holds the rows of each session insert. *)
Definition seedDatabase_with (totalUsers batchSize : Z) (env : Env)
    (generated : list (list GameSession)) (d0 : DB) : DB * Result unit :=
  if store_down env then (d0, Err (PrismaError "P1001"))
  else if negb (int4 totalUsers) then (empty_db, Err (PrismaError "P2010"))
  else
    let d1 := mkDB (seed_users (now env) totalUsers) [] ∅ in
    match run_all insert_sessions generated d1 with
    | (d2, Err e) => (d2, Err e)
    | (d2, Ok _) =>
        match run_all (aggregate_batch batchSize)
                (batch_starts totalUsers batchSize) d2 with
        | (d3, Err e) => (d3, Err e)
        | (d3, Ok _) =>
            (mkDB (users d3) (game_sessions d3)
               (update_ranks (leaderboards d3)), Ok ())
        end
    end.

(** The script's constants: a million users, batches of 100,000. *)
Definition seedDatabase : Env → list (list GameSession) → DB → DB * Result unit :=
  seedDatabase_with 1000000 100000.

End Seed.

Section seed_facts.
Import Seed.

Lemma seed_users_lookup t N u usr :
  seed_users t N !! u = Some usr ↔
  1 ≤ u ≤ N ∧ usr = mkUser (Tx.user_name u) t.
Proof.
  unfold seed_users.
  assert (((λ s, (s, mkUser (Tx.user_name s) t)) <$> seqZ 1 N).*1 = seqZ 1 N)
    as Hfst.
  { induction (seqZ 1 N) as [|x xs IH]; [done|]. simpl. by f_equal. }
  rewrite <- elem_of_list_to_map by (rewrite Hfst; apply NoDup_seqZ).
  rewrite list_elem_of_fmap. setoid_rewrite elem_of_seqZ. split.
  - intros (s & [= -> ->] & Hs). split; [lia|done].
  - intros [Hu ->]. exists u. split; [done|lia].
Qed.

Lemma run_insert_sessions batches d d' :
  run_all insert_sessions batches d = (d', Ok ()) →
  users d' = users d ∧ leaderboards d' = leaderboards d ∧
  game_sessions d' = game_sessions d ++ concat batches ∧
  Forall (λ s, is_Some (users d !! gs_user_id s)) (concat batches).
Proof.
  revert d. induction batches as [|rows batches IH]; intros d; simpl.
  { intros [= <-]. by rewrite app_nil_r. }
  unfold insert_sessions at 1.
  destruct (forallb _ rows) eqn:Hall; [|done].
  intros (Hu & Hl & Hs & Hfk)%IH. simpl in *.
  split; [done|]. split; [done|]. split; [by rewrite Hs, app_assoc|].
  apply Forall_app. split; [|done].
  apply Is_true_true_2, forallb_True in Hall.
  eapply Forall_impl; [exact Hall|]. intros s Hsx. simpl in Hsx.
  apply andb_prop_elim in Hsx as [_ Hx]. by apply bool_decide_unpack in Hx.
Qed.

Lemma foldr_upsert_lookup (f : Z → Leaderboard) us (lbs : gmap Z Leaderboard) u :
  foldr (λ u lbs, <[u := f u]> lbs) lbs us !! u =
    if decide (u ∈ us) then Some (f u) else lbs !! u.
Proof.
  induction us as [|x us IH]; cbn [foldr].
  { rewrite decide_False; [done|]. apply not_elem_of_nil. }
  destruct (decide (x = u)) as [->|Hne].
  - rewrite lookup_insert_eq, decide_True; [done|]. apply elem_of_cons. by left.
  - rewrite lookup_insert_ne by done. rewrite IH.
    destruct (decide (u ∈ us)) as [Hin|Hout].
    + rewrite decide_True; [done|]. apply elem_of_cons. by right.
    + rewrite decide_False; [done|]. rewrite elem_of_cons. intros [?|?]; by subst.
Qed.

(** Player [u] has a logged session. *)
Definition has_session (d : DB) (u : Z) : Prop :=
  u ∈ gs_user_id <$> game_sessions d.

(** Some batch of the loop covers [u]. *)
Definition covered (b : Z) (starts : list Z) (u : Z) : Prop :=
  Exists (λ lo, lo ≤ u ≤ lo + b - 1) starts.

Global Instance has_session_dec d u : Decision (has_session d u).
Proof. unfold has_session. apply _. Defined.

Global Instance covered_dec b starts u : Decision (covered b starts u).
Proof. unfold covered. apply _. Defined.

Lemma run_aggregate b starts d d' :
  run_all (aggregate_batch b) starts d = (d', Ok ()) →
  users d' = users d ∧ game_sessions d' = game_sessions d ∧
  ∀ u, leaderboards d' !! u =
       if decide (has_session d u ∧ covered b starts u)
       then Some (mkLeaderboard (player_sum u d) (leaderboards d !! u ≫= rank))
       else leaderboards d !! u.
Proof.
  revert d. induction starts as [|lo starts IH]; intros d; cbn [run_all].
  { intros [= <-]. split; [done|]. split; [done|]. intros u.
    rewrite decide_False; [done|]. intros [_ H]. by apply Exists_nil in H. }
  unfold aggregate_batch at 1.
  destruct (forallb _ _) eqn:Hall; [|done].
  intros (Hu & Hs & Hl)%IH. cbn [users game_sessions leaderboards] in *.
  split; [done|]. split; [done|]. intros u. rewrite Hl. clear Hl IH.
  unfold has_session, player_sum, covered.
  cbn [users game_sessions leaderboards].
  rewrite foldr_upsert_lookup. unfold groups.
  assert (u ∈ remove_dups (filter (λ u0, lo ≤ u0 ≤ lo + b - 1)
                             (gs_user_id <$> game_sessions d)) ↔
          (lo ≤ u ≤ lo + b - 1) ∧ u ∈ gs_user_id <$> game_sessions d) as Hg.
  { by rewrite elem_of_remove_dups, list_elem_of_filter. }
  pose proof (Exists_cons (λ lo0, lo0 ≤ u ≤ lo0 + b - 1) lo starts) as Hc.
  repeat case_decide; simpl; try done; exfalso; tauto.
Qed.

Lemma batch_starts_cover N b u :
  0 < b → 1 ≤ u ≤ N → covered b (batch_starts N b) u.
Proof.
  intros Hb Hu. unfold covered, batch_starts. apply Exists_exists.
  exists (1 + (u - 1) `div` b * b). split.
  - apply list_elem_of_fmap. exists ((u - 1) `div` b). split; [done|].
    apply elem_of_seqZ.
    pose proof (Z.div_le_mono (u - 1) (N - 1) b Hb ltac:(lia)).
    pose proof (Z.div_pos (u - 1) b ltac:(lia) Hb). lia.
  - pose proof (Z.mul_div_le (u - 1) b Hb).
    pose proof (Z.mul_succ_div_gt (u - 1) b Hb). lia.
Qed.

End seed_facts.

Section seed_theorem.
Import Seed.

(** X26. A seed run that completes leaves a store the service's
    invariants hold in, whatever rows were generated: the users are exactly
    the ids 1 to [totalUsers], each named [user_<id>]; the session log is
    the generated rows in order; the players with an aggregate row are
    exactly the players with a session, each row holding the sum of its
    player's sessions; and every rank is one more than the number of
    players with a strictly greater total. *)
Theorem seed_establishes_invariants
    (totalUsers batchSize : Z) (env : Env)
    (generated : list (list GameSession)) (d0 d : DB) :
  0 < batchSize →
  seedDatabase_with totalUsers batchSize env generated d0 = (d, Ok ()) →
  world_ok (mkWorld d ∅ []) ∧ sessions_have_rows d ∧ users_named d ∧
  game_sessions d = concat generated ∧
  (∀ u, is_Some (users d !! u) ↔ 1 ≤ u ≤ totalUsers) ∧
  (∀ u, is_Some (leaderboards d !! u) ↔ has_session d u) ∧
  (∀ u t, total_of d u = Some t →
          rank_of d u = Some (players_above d t + 1)).
Proof.
  intros Hb. unfold seedDatabase_with.
  destruct (store_down env); [done|].
  destruct (negb (int4 totalUsers)); [done|].
  destruct (run_all insert_sessions generated _) as [d2 [[]|e]] eqn:E2; [|done].
  destruct (run_all (aggregate_batch batchSize) _ d2) as [d3 [[]|e]] eqn:E3;
    [|done].
  intros [= <-].
  apply run_insert_sessions in E2 as (Hu2 & Hl2 & Hs2 & Hfk2). simpl in *.
  apply run_aggregate in E3 as (Hu3 & Hs3 & Hl3).
  assert (Husers : ∀ u, is_Some (users d3 !! u) ↔ 1 ≤ u ≤ totalUsers).
  { intros u. rewrite Hu3, Hu2. split.
    - intros [usr Husr]. by apply seed_users_lookup in Husr as [? _].
    - intros Hr. eexists. by apply seed_users_lookup. }
  assert (Hsess : ∀ u, has_session d2 u → 1 ≤ u ≤ totalUsers).
  { intros u Hin. unfold has_session in Hin. rewrite Hs2 in Hin.
    apply list_elem_of_fmap in Hin as (s & -> & Hin).
    rewrite Forall_forall in Hfk2. apply Hfk2 in Hin.
    apply Husers. by rewrite Hu3, Hu2. }
  assert (Hrows : ∀ u, leaderboards d3 !! u =
            if decide (has_session d2 u)
            then Some (mkLeaderboard (player_sum u d2) None) else None).
  { intros u. rewrite Hl3, Hl2, lookup_empty. simpl.
    destruct (decide (has_session d2 u)) as [Hin|Hout].
    - rewrite decide_True; [done|]. split; [done|].
      by apply batch_starts_cover, Hsess.
    - rewrite decide_False; [done|]. by intros [? _]. }
  assert (Hsame : ∀ u, has_session (mkDB (users d3) (game_sessions d3)
                          (update_ranks (leaderboards d3))) u
                       ↔ has_session d2 u).
  { intros u. unfold has_session. simpl. by rewrite Hs3. }
  assert (Hsum : ∀ u, player_sum u (mkDB (users d3) (game_sessions d3)
                          (update_ranks (leaderboards d3)))
                      = player_sum u d2).
  { intros u. unfold player_sum. simpl. by rewrite Hs3. }
  split; [split; [|split]|].
  - (* foreign key *)
    intros u row Hrow. simpl in *.
    assert (is_Some (leaderboards d3 !! u)) as [row3 Hrow3].
    { apply update_ranks_is_Some. eauto. }
    rewrite Hrows in Hrow3. case_decide as Hin; [|done].
    by apply Husers, Hsess.
  - (* totals *)
    intros u row Hrow. simpl in Hrow. rewrite Hsum.
    rewrite update_ranks_lookup, Hrows in Hrow.
    case_decide; [|done]. simpl in Hrow. by inversion Hrow.
  - intros u e H. simpl in H. by rewrite lookup_empty in H.
  - split; [|split; [|split; [|split; [|split]]]].
    + unfold sessions_have_rows. simpl. apply Forall_forall. intros s Hin.
      apply update_ranks_is_Some. rewrite Hrows.
      rewrite decide_True; [done|]. unfold has_session. rewrite <- Hs3.
      apply list_elem_of_fmap. by exists s.
    + unfold users_named. simpl. rewrite Hu3, Hu2. intros u usr Husr.
      by apply seed_users_lookup in Husr as [_ ->].
    + simpl. by rewrite Hs3, Hs2.
    + done.
    + intros u. simpl. rewrite update_ranks_is_Some, Hrows.
      fold (has_session (mkDB (users d3) (game_sessions d3)
                           (update_ranks (leaderboards d3))) u).
      rewrite Hsame. case_decide; split; done.
    + intros u t Ht. unfold total_of, rank_of, players_above in *. simpl in *.
      rewrite update_ranks_lookup in *.
      destruct (leaderboards d3 !! u) as [row|]; simpl in *; [|done].
      inversion Ht; subst t.
      by rewrite !(count_greater_fmap lb_score), update_ranks_scores.
Qed.

(** Three users seeded in batches of two, with two session inserts. *)
Definition small_seed : DB :=
  (seedDatabase_with 3 2 (healthy 0)
     [[mkGameSession 1 10 "solo" 0; mkGameSession 2 20 "team" 0];
      [mkGameSession 1 5 "solo" 0]] empty_db).1.

Lemma seed_establishes_invariants_witness :
  world_ok (mkWorld small_seed ∅ []) ∧ sessions_have_rows small_seed ∧
  users_named small_seed ∧
  game_sessions small_seed =
    concat [[mkGameSession 1 10 "solo" 0; mkGameSession 2 20 "team" 0];
            [mkGameSession 1 5 "solo" 0]] ∧
  (∀ u, is_Some (users small_seed !! u) ↔ 1 ≤ u ≤ 3) ∧
  (∀ u, is_Some (leaderboards small_seed !! u) ↔ has_session small_seed u) ∧
  (∀ u t, total_of small_seed u = Some t →
          rank_of small_seed u = Some (players_above small_seed t + 1)).
Proof.
  apply (seed_establishes_invariants 3 2 (healthy 0)
           [[mkGameSession 1 10 "solo" 0; mkGameSession 2 20 "team" 0];
            [mkGameSession 1 5 "solo" 0]] empty_db small_seed).
  - lia.
  - vm_compute. reflexivity.
Defined.

Example small_seed_rows :
  map_to_list (leaderboards small_seed) =
    [(2, mkLeaderboard 20 (Some 1)); (1, mkLeaderboard 15 (Some 2))].
Proof. vm_compute. reflexivity. Qed.

End seed_theorem.
